(** * ha_ircon: the IRCON storage engine handler (src/ha_ircon.cc)

    A shallow embedding of the handler's open/close, write/update/delete and
    table-scan entry points, together with the libc routines they call on
    fixed-size character arrays, and the properties of the bridge between the
    cached device state and the command stream written to the socket. *)

From Stdlib Require Import String Ascii.
From Stdlib Require Import ZArith Lia Bool Arith List.
From ExtLib Require Import Structures.Monad Structures.MonadState Structures.MonadExc.
From ExtLib Require Import Data.Monads.StateMonad Data.Monads.EitherMonad.
Import ListNotations.
Import MonadNotation.
Local Open Scope monad_scope.
Local Open Scope list_scope.

#[local] Existing Instance Monad_stateT.

(** ** Characters and character arrays *)

(** A run of [char]: the bytes of a string constant (its terminator is the end
    of the list), or the cells of a character array of that many bytes. *)
Definition bytes := list ascii.

Definition lit (s : string) : bytes := list_ascii_of_string s.

Definition NUL : ascii := Ascii.zero.
Definition LF : ascii := ascii_of_nat 10.

Module CLib.

(** The characters of the C string that starts at [s]: everything before the
    first terminator. *)
Fixpoint cstr (s : bytes) : bytes :=
  match s with
  | [] => []
  | c :: r => if Ascii.eqb c NUL then [] else c :: cstr r
  end.

(** [strlen] of a string constant or of any pointer to terminated storage. *)
Definition strlen (s : bytes) : nat := length (cstr s).

(** [strlen] of a character array of [length buf] cells: there is no answer
    when no cell holds the terminator (the scan leaves the array). *)
Fixpoint strlen_arr (buf : bytes) : option nat :=
  match buf with
  | [] => None
  | c :: r => if Ascii.eqb c NUL then Some 0 else option_map S (strlen_arr r)
  end.

(** The string held by a character array, read the way [send (.., buf,
    strlen (buf))] and [store (buf, strlen (buf))] read it. *)
Definition string_of_arr (buf : bytes) : option bytes :=
  option_map (fun n => firstn n buf) (strlen_arr buf).

(** [strncpy (dst, src, n)]: exactly [n] cells of [dst] are written, the
    characters of [src] up to its terminator or its [n]-th character and then
    terminators; nothing is written past cell [n - 1], so no terminator is
    written when [src] has [n] characters or more.  No answer when [dst] has
    fewer than [n] cells. *)
Definition strncpy (dst src : bytes) (n : nat) : option bytes :=
  if n <=? length dst then
    let body := firstn n (cstr src) in
    Some (body ++ repeat NUL (n - length body) ++ skipn n dst)
  else None.

(** [dst[i] = c]; no answer when the array has no cell [i]. *)
Definition poke (dst : bytes) (i : nat) (c : ascii) : option bytes :=
  if i <? length dst then Some (firstn i dst ++ c :: skipn (S i) dst)
  else None.

(** [strncmp (s1, s2, n)] on two terminated strings: the difference of the
    first pair of differing characters (as unsigned char) among the first
    [n], 0 when there is none before a terminator or the [n]-th character. *)
Fixpoint strncmp (s1 s2 : bytes) (n : nat) : Z :=
  match n with
  | O => 0%Z
  | S n' =>
      let c1 := hd NUL s1 in
      let c2 := hd NUL s2 in
      if negb (Ascii.eqb c1 c2)
      then (Z.of_nat (nat_of_ascii c1) - Z.of_nat (nat_of_ascii c2))%Z
      else if Ascii.eqb c1 NUL then 0%Z
      else strncmp (tl s1) (tl s2) n'
  end.

Definition isspace (c : ascii) : bool :=
  let n := nat_of_ascii c in (n =? 32) || ((9 <=? n) && (n <=? 13)).

Definition isdigit (c : ascii) : bool :=
  let n := nat_of_ascii c in (48 <=? n) && (n <=? 57).

Definition INT_MAX : Z := 2147483647.
Definition INT_MIN : Z := (-2147483648).

(** The digits read by [atoi], most significant first.  The text is a region
    of a character array: reading stops at the first cell that is not a
    digit (a terminator is one), and there is no answer when every cell up
    to the end of the array is a digit. *)
Fixpoint atoi_digits (acc : Z) (s : bytes) : option Z :=
  match s with
  | [] => None
  | c :: r =>
      if isdigit c
      then atoi_digits (10 * acc + (Z.of_nat (nat_of_ascii c) - 48))%Z r
      else Some acc
  end.

Definition atoi_signed (s : bytes) : option Z :=
  match s with
  | [] => None
  | c :: r =>
      if Ascii.eqb c "-"%char then option_map Z.opp (atoi_digits 0 r)
      else if Ascii.eqb c "+"%char then atoi_digits 0 r
      else atoi_digits 0 s
  end.

Fixpoint atoi_spaces (s : bytes) : option Z :=
  match s with
  | [] => None
  | c :: r => if isspace c then atoi_spaces r else atoi_signed s
  end.

(** [atoi]: leading white space, an optional sign, decimal digits.  No answer
    when the read leaves the array or the value is not an [int]. *)
Definition atoi (s : bytes) : option Z :=
  match atoi_spaces s with
  | Some v => if ((INT_MIN <=? v) && (v <=? INT_MAX))%Z then Some v else None
  | None => None
  end.

(** The conversion of an [int] argument to the [uint16_t] parameter of
    [htons]: the port number that goes into the socket address. *)
Definition uint16 (v : Z) : Z := (v mod 65536)%Z.

End CLib.

(** ** Constants *)

(** Modelled from the spec: ha_ircon.h, which defines the IRCON_COMMAND_*
    names, is not among the sources.  The spec gives the four recognized
    attribute names and the sentinel. *)
Definition IRCON_COMMAND_MODE : bytes := lit "mode".
Definition IRCON_COMMAND_TEMPERATURE : bytes := lit "temperature".
Definition IRCON_COMMAND_POWER : bytes := lit "power".
Definition IRCON_COMMAND_ANGLE : bytes := lit "angle".
Definition IRCON_COMMAND_UNKNOWN : bytes := lit "unknown".

(** The server's handler error codes (my_base.h). *)
Definition HA_ERR_WRONG_COMMAND : Z := 131.
Definition HA_ERR_END_OF_FILE : Z := 137.

(** ** Data *)

(** [Ircon_share]: the socket, the connected flag, and the four attribute
    arrays.  The number of cells of an array is the length of its list. *)
Record Ircon_share := mkShare {
  socket : Z;
  socket_opened : bool;
  state_mode : bytes;
  state_temperature : bytes;
  state_power : bytes;
  state_angle : bytes
}.

(** A column of the table: its name, its declared length in bytes, and the
    value its accessors read ([val_str]) and write ([store]) in the current
    row image. *)
Record Field := mkField {
  field_name : bytes;
  field_length : nat;
  val : bytes
}.

Definition val_str (f : Field) : bytes := val f.

Definition store (f : Field) (v : bytes) : Field :=
  mkField (field_name f) (field_length f) v.

(** The system calls the handler issues, in the order it issues them. *)
Inductive event :=
| EvSocket (ret : Z)
| EvConnect (fd : Z) (host : bytes) (port : Z) (ret : Z)
| EvSend (fd : Z) (payload : bytes)
| EvShutdown (fd : Z)
| EvClose (fd : Z).

(** What one handler sees: the table it was created for (name and columns),
    the share of that table (the object behind [get_ha_share_ptr] and, once
    [open] has run, behind the handler's [share] pointer: one object, so one
    field), the handler's own members, and the system calls made so far. *)
Record world := mkWorld {
  table_name : bytes;
  field : list Field;
  share : option Ircon_share;
  next_is_eof : bool;
  stats_records : Z;
  trace : list event
}.

(** What the surroundings answer during one [open]: the results of [socket]
    and [connect], and the storage [new Ircon_share] hands out, as it is
    before the constructor runs. *)
Record answers := mkAnswers {
  ret_socket : Z;
  ret_connect : Z;
  heap_share : Ircon_share
}.

(** Behaviour the language leaves undefined. *)
Inductive fault :=
| OutOfBounds        (* a write past the last cell of an array *)
| Unterminated       (* a string read that leaves its array *)
| NullShare          (* the share pointer used before [open] set it *)
| AtoiUndefined.     (* [atoi] left its array or its value is no [int] *)

Definition M : Type -> Type := stateT world (sum fault).

Definition run {A} (c : M A) (w : world) : fault + (A * world) := runStateT c w.

(** The bytes written to the sockets so far, in order. *)
Fixpoint wire (t : list event) : bytes :=
  match t with
  | [] => []
  | EvSend _ p :: r => p ++ wire r
  | _ :: r => wire r
  end.

(** ** The handler *)

Definition undefined {A} (f : fault) : M A := raise f.

(** A libc call whose answer may not exist. *)
Definition defined {A} (f : fault) (o : option A) : M A :=
  match o with
  | Some a => ret a
  | None => undefined f
  end.

Definition set_share (s : Ircon_share) (w : world) : world :=
  mkWorld (table_name w) (field w) (Some s) (next_is_eof w) (stats_records w) (trace w).

Definition set_field (fs : list Field) (w : world) : world :=
  mkWorld (table_name w) fs (share w) (next_is_eof w) (stats_records w) (trace w).

Definition set_next_is_eof (b : bool) (w : world) : world :=
  mkWorld (table_name w) (field w) (share w) b (stats_records w) (trace w).

Definition set_stats_records (n : Z) (w : world) : world :=
  mkWorld (table_name w) (field w) (share w) (next_is_eof w) n (trace w).

Definition log (e : event) (w : world) : world :=
  mkWorld (table_name w) (field w) (share w) (next_is_eof w) (stats_records w)
          (trace w ++ [e]).

Definition update (f : world -> world) : M unit := w <- get ;; put (f w).

(** [share->...]: the share the handler points to. *)
Definition the_share : M Ircon_share := w <- get ;; defined NullShare (share w).

(** [send (fd, payload, length payload, 0)]; its result is never looked at. *)
Definition send (fd : Z) (payload : bytes) : M unit := update (log (EvSend fd payload)).

(** The four attributes of a share. *)
Inductive attr := Mode | Temperature | Power | Angle.

Definition state (a : attr) (s : Ircon_share) : bytes :=
  match a with
  | Mode => state_mode s
  | Temperature => state_temperature s
  | Power => state_power s
  | Angle => state_angle s
  end.

Definition set_state (a : attr) (b : bytes) (s : Ircon_share) : Ircon_share :=
  match a with
  | Mode =>
      mkShare (socket s) (socket_opened s) b (state_temperature s) (state_power s) (state_angle s)
  | Temperature =>
      mkShare (socket s) (socket_opened s) (state_mode s) b (state_power s) (state_angle s)
  | Power =>
      mkShare (socket s) (socket_opened s) (state_mode s) (state_temperature s) b (state_angle s)
  | Angle =>
      mkShare (socket s) (socket_opened s) (state_mode s) (state_temperature s) (state_power s) b
  end.

Definition set_socket (fd : Z) (s : Ircon_share) : Ircon_share :=
  mkShare fd (socket_opened s) (state_mode s) (state_temperature s) (state_power s) (state_angle s).

Definition set_socket_opened (b : bool) (s : Ircon_share) : Ircon_share :=
  mkShare (socket s) b (state_mode s) (state_temperature s) (state_power s) (state_angle s).

Fixpoint for_each {A} (body : A -> M unit) (l : list A) : M unit :=
  match l with
  | [] => ret tt
  | x :: r => body x ;; for_each body r
  end.

Fixpoint map_each {A B} (body : A -> M B) (l : list A) : M (list B) :=
  match l with
  | [] => ret []
  | x :: r => y <- body x ;; ys <- map_each body r ;; ret (y :: ys)
  end.

(** [Ircon_share::Ircon_share]: only the connected flag is initialised. *)
Definition Ircon_share_ctor (raw : Ircon_share) : Ircon_share := set_socket_opened false raw.

(** [ha_ircon::get_share]: the table's share, created on first use. *)
Definition get_share (raw : Ircon_share) : M Ircon_share :=
  w <- get ;;
  match share w with
  | Some tmp_share => ret tmp_share
  | None =>
      let tmp_share := Ircon_share_ctor raw in
      put (set_share tmp_share w) ;;
      ret tmp_share
  end.

(** [strncpy (share->state_X, IRCON_COMMAND_UNKNOWN, IRCON_COMMAND_LENGTH)]. *)
Definition reset_state (IRCON_COMMAND_LENGTH : nat) (a : attr) : M unit :=
  sh <- the_share ;;
  b <- defined OutOfBounds
         (CLib.strncpy (state a sh) IRCON_COMMAND_UNKNOWN IRCON_COMMAND_LENGTH) ;;
  update (set_share (set_state a b sh)).

(** The index of the first cell of [buf] that holds a colon, counting from [i]:
    the [for] loop of [open] up to its [break]. *)
Fixpoint find_colon (buf : bytes) (i : nat) : option nat :=
  match buf with
  | [] => None
  | c :: r => if Ascii.eqb c ":"%char then Some i else find_colon r (S i)
  end.

(** The statements of [open] from the copy of the table name into
    [ip_port_buf] (a fresh array of 32 cells, every one of which [strncpy]
    writes) to the end of the [for] loop: the array and [port] as the loop
    leaves them. *)
Definition split_ip_port (name : bytes) : M (bytes * Z) :=
  ip_port_buf <- defined OutOfBounds (CLib.strncpy (repeat NUL 32) name 32) ;;
  match find_colon ip_port_buf 0 with
  | Some i =>
      b <- defined OutOfBounds (CLib.poke ip_port_buf i NUL) ;;
      if i <? 31
      then port <- defined AtoiUndefined (CLib.atoi (skipn (i + 1) b)) ;; ret (b, port)
      else ret (b, 0%Z)
  | None => ret (ip_port_buf, 0%Z)
  end.

Section Header.

(** ha_ircon.h is not among the sources: the two numbers it defines are
    parameters of the handler. *)
Variable IRCON_COMMAND_LENGTH : nat.
Variable IRCON_DEFAULT_PORT : Z.

(** [ha_ircon::open]. *)
Definition open (os : answers) (name : bytes) (mode : Z) (test_if_locked : Z) : M Z :=
  sh <- get_share (heap_share os) ;;
  if negb (socket_opened sh) then
    update (log (EvSocket (ret_socket os))) ;;
    update (set_share (set_socket (ret_socket os) sh)) ;;
    if (ret_socket os <? 0)%Z then ret (-1)%Z
    else
      w <- get ;;
      parsed <- split_ip_port (table_name w) ;;
      let ip_ptr := fst parsed in
      let port := if (snd parsed =? 0)%Z then IRCON_DEFAULT_PORT else snd parsed in
      host <- defined Unterminated (CLib.string_of_arr ip_ptr) ;;
      sh <- the_share ;;
      update (log (EvConnect (socket sh) host (CLib.uint16 port) (ret_connect os))) ;;
      update (set_share (set_socket_opened true sh)) ;;
      reset_state IRCON_COMMAND_LENGTH Mode ;;
      reset_state IRCON_COMMAND_LENGTH Temperature ;;
      reset_state IRCON_COMMAND_LENGTH Power ;;
      reset_state IRCON_COMMAND_LENGTH Angle ;;
      ret 0%Z
  else ret 0%Z.

(** [ha_ircon::delete_row]. *)
Definition delete_row (buf : bytes) : M Z :=
  reset_state IRCON_COMMAND_LENGTH Mode ;;
  reset_state IRCON_COMMAND_LENGTH Temperature ;;
  reset_state IRCON_COMMAND_LENGTH Power ;;
  reset_state IRCON_COMMAND_LENGTH Angle ;;
  sh <- the_share ;;
  send (socket sh) (firstn 8 (lit "mode:-," ++ [LF; NUL])) ;;
  ret 0%Z.

End Header.

(** [ha_ircon::close]. *)
Definition close : M Z :=
  sh <- the_share ;;
  update (log (EvShutdown (socket sh))) ;;
  update (log (EvClose (socket sh))) ;;
  update (set_share (set_socket_opened false sh)) ;;
  ret 0%Z.

(** One branch of the dispatch in [write_update_row], for the attribute [a]:
    the guarded copy into the cache, then the three transmissions. *)
Definition cache_and_send (a : attr) (f : Field) : M unit :=
  let attribute := val_str f in
  sh <- the_share ;;
  (if 0 <? length attribute then
     b <- defined OutOfBounds (CLib.strncpy (state a sh) attribute (length attribute)) ;;
     b <- defined OutOfBounds (CLib.poke b (length attribute) NUL) ;;
     update (set_share (set_state a b sh))
   else ret tt) ;;
  sh <- the_share ;;
  send (socket sh) (firstn (CLib.strlen (field_name f)) (field_name f)) ;;
  send (socket sh) (lit ":") ;;
  v <- defined Unterminated (CLib.string_of_arr (state a sh)) ;;
  send (socket sh) v.

(** The body of the loop of [write_update_row] for one column. *)
Definition write_update_field (f : Field) : M unit :=
  let name := field_name f in
  if (CLib.strncmp name IRCON_COMMAND_MODE (CLib.strlen name) =? 0)%Z then
    cache_and_send Mode f ;;
    sh <- the_share ;; send (socket sh) (lit ",")
  else if (CLib.strncmp name IRCON_COMMAND_TEMPERATURE (CLib.strlen name) =? 0)%Z then
    cache_and_send Temperature f ;;
    sh <- the_share ;; send (socket sh) (lit ",")
  else if (CLib.strncmp name IRCON_COMMAND_POWER (CLib.strlen name) =? 0)%Z then
    cache_and_send Power f ;;
    sh <- the_share ;; send (socket sh) (lit ",")
  else if (CLib.strncmp name IRCON_COMMAND_ANGLE (CLib.strlen name) =? 0)%Z then
    cache_and_send Angle f ;;
    sh <- the_share ;; send (socket sh) (lit ",")
  else ret tt.

(** [ha_ircon::write_update_row]. *)
Definition write_update_row : M Z :=
  w <- get ;;
  for_each write_update_field (field w) ;;
  sh <- the_share ;;
  send (socket sh) [LF] ;;
  ret 0%Z.

(** [ha_ircon::write_row] and [ha_ircon::update_row]. *)
Definition write_row (buf : bytes) : M Z := write_update_row.

Definition update_row (old_data new_data : bytes) : M Z := write_update_row.

(** [ha_ircon::rnd_init]. *)
Definition rnd_init (scan : bool) : M Z :=
  update (set_next_is_eof false) ;; ret 0%Z.

(** The body of the loop of [rnd_next] for one column: [res] is the array the
    column is filled from, the literal with its terminator in the last case. *)
Definition rnd_next_field (f : Field) : M Field :=
  let name := field_name f in
  res <-
    (if (CLib.strncmp name IRCON_COMMAND_MODE (field_length f) =? 0)%Z then
       sh <- the_share ;; ret (state_mode sh)
     else if (CLib.strncmp name IRCON_COMMAND_TEMPERATURE (field_length f) =? 0)%Z then
       sh <- the_share ;; ret (state_temperature sh)
     else if (CLib.strncmp name IRCON_COMMAND_POWER (field_length f) =? 0)%Z then
       sh <- the_share ;; ret (state_power sh)
     else if (CLib.strncmp name IRCON_COMMAND_ANGLE (field_length f) =? 0)%Z then
       sh <- the_share ;; ret (state_angle sh)
     else ret (IRCON_COMMAND_UNKNOWN ++ [NUL])) ;;
  v <- defined Unterminated (CLib.string_of_arr res) ;;
  ret (store f v).

(** [stats.records++] on an unsigned 64-bit counter. *)
Definition incr_records (n : Z) : Z := ((n + 1) mod 2 ^ 64)%Z.

(** [ha_ircon::rnd_next]. *)
Definition rnd_next (buf : bytes) : M Z :=
  w <- get ;;
  if next_is_eof w then ret HA_ERR_END_OF_FILE
  else
    fs <- map_each rnd_next_field (field w) ;;
    update (set_field fs) ;;
    update (fun w => set_stats_records (incr_records (stats_records w)) w) ;;
    update (set_next_is_eof true) ;;
    ret 0%Z.

(** The entry points that only report that the command is not supported. *)
Definition index_read_map (buf key : bytes) (keypart_map : Z) (find_flag : Z) : M Z :=
  let rc := HA_ERR_WRONG_COMMAND in ret rc.

Definition index_next (buf : bytes) : M Z := let rc := HA_ERR_WRONG_COMMAND in ret rc.

Definition index_prev (buf : bytes) : M Z := let rc := HA_ERR_WRONG_COMMAND in ret rc.

Definition index_first (buf : bytes) : M Z := let rc := HA_ERR_WRONG_COMMAND in ret rc.

Definition index_last (buf : bytes) : M Z := let rc := HA_ERR_WRONG_COMMAND in ret rc.

Definition rnd_pos (buf pos : bytes) : M Z := let rc := HA_ERR_WRONG_COMMAND in ret rc.

Definition delete_all_rows : M Z := ret HA_ERR_WRONG_COMMAND.

Definition truncate : M Z := ret HA_ERR_WRONG_COMMAND.

Definition rename_table (from to : bytes) : M Z := ret HA_ERR_WRONG_COMMAND.

(** ** Vocabulary of the properties *)

(** The two statements of [write_update_row] that store a column value [v] in
    an attribute array: [strncpy (dst, v, length v)], then [dst[length v] = 0]. *)
Definition cache_store (dst v : bytes) : option bytes :=
  match CLib.strncpy dst v (length v) with
  | Some b => CLib.poke b (length v) NUL
  | None => None
  end.

(** The attribute whose branch [write_update_row] takes for a column name. *)
Definition write_target (name : bytes) : option attr :=
  if (CLib.strncmp name IRCON_COMMAND_MODE (CLib.strlen name) =? 0)%Z then Some Mode
  else if (CLib.strncmp name IRCON_COMMAND_TEMPERATURE (CLib.strlen name) =? 0)%Z
  then Some Temperature
  else if (CLib.strncmp name IRCON_COMMAND_POWER (CLib.strlen name) =? 0)%Z then Some Power
  else if (CLib.strncmp name IRCON_COMMAND_ANGLE (CLib.strlen name) =? 0)%Z then Some Angle
  else None.

(** The attribute whose array [rnd_next] reads for a column. *)
Definition scan_source (f : Field) : option attr :=
  let name := field_name f in
  if (CLib.strncmp name IRCON_COMMAND_MODE (field_length f) =? 0)%Z then Some Mode
  else if (CLib.strncmp name IRCON_COMMAND_TEMPERATURE (field_length f) =? 0)%Z
  then Some Temperature
  else if (CLib.strncmp name IRCON_COMMAND_POWER (field_length f) =? 0)%Z then Some Power
  else if (CLib.strncmp name IRCON_COMMAND_ANGLE (field_length f) =? 0)%Z then Some Angle
  else None.

Definition attr_name (a : attr) : bytes :=
  match a with
  | Mode => IRCON_COMMAND_MODE
  | Temperature => IRCON_COMMAND_TEMPERATURE
  | Power => IRCON_COMMAND_POWER
  | Angle => IRCON_COMMAND_ANGLE
  end.

(** The cached value of an attribute: the string its array holds. *)
Definition cached (a : attr) (s : Ircon_share) : option bytes :=
  CLib.string_of_arr (state a s).

(** Every attribute array holds a terminated string. *)
Definition terminated (s : Ircon_share) : Prop :=
  forall a, cached a s = Some (CLib.cstr (state a s)).

(** Every attribute array has at least [n] cells. *)
Definition roomy (n : nat) (s : Ircon_share) : Prop :=
  forall a, n <= length (state a s).

(** What a scan puts in a column, given the share. *)
Definition scan_value (s : Ircon_share) (f : Field) : bytes :=
  match scan_source f with
  | Some a => CLib.cstr (state a s)
  | None => IRCON_COMMAND_UNKNOWN
  end.

(** The share [open] works on: the table's share, or the one [get_share]
    constructs in the storage it is handed. *)
Definition share_at_open (os : answers) (w : world) : Ircon_share :=
  match share w with
  | Some s => s
  | None => Ircon_share_ctor (heap_share os)
  end.

(** An attribute array after [strncpy (.., IRCON_COMMAND_UNKNOWN, n)]. *)
Definition reset_arr (n : nat) (dst : bytes) : bytes :=
  match CLib.strncpy dst IRCON_COMMAND_UNKNOWN n with
  | Some b => b
  | None => dst
  end.

Definition reset_share (n : nat) (s : Ircon_share) : Ircon_share :=
  mkShare (socket s) (socket_opened s)
          (reset_arr n (state_mode s)) (reset_arr n (state_temperature s))
          (reset_arr n (state_power s)) (reset_arr n (state_angle s)).

(** An identifier cut at its first colon, in the words of the spec: the host,
    and the port segment when there is a colon. *)
Fixpoint split_colon (s : bytes) : bytes * option bytes :=
  match s with
  | [] => ([], None)
  | c :: r =>
      if Ascii.eqb c ":"%char then ([], Some r)
      else let hp := split_colon r in (c :: fst hp, snd hp)
  end.

(** The value [port] has after the loop of [open]: 0 without a port segment,
    [atoi] of the terminated segment with one. *)
Definition segment_port (seg : option bytes) : option Z :=
  match seg with
  | None => Some 0%Z
  | Some s => CLib.atoi (s ++ [NUL])
  end.

(** A port segment written as a number: the value of a run of decimal digits,
    most significant first, and a run of digits with or without a minus sign
    before it. *)
Definition decimal (ds : bytes) : Z :=
  fold_left (fun acc c => (10 * acc + (Z.of_nat (nat_of_ascii c) - 48))%Z) ds 0%Z.

Definition signed_number (neg : bool) (ds : bytes) : bytes :=
  if neg then "-"%char :: ds else ds.

Definition signed_value (neg : bool) (ds : bytes) : Z :=
  if neg then (- decimal ds)%Z else decimal ds.

(** The port of the [connect] calls in a trace, latest last. *)
Fixpoint connect_ports (t : list event) : list Z :=
  match t with
  | [] => []
  | EvConnect _ _ p _ :: r => p :: connect_ports r
  | _ :: r => connect_ports r
  end.

(** The server placing the values of a row in the columns, before a write. *)
Fixpoint fill_row (fs : list Field) (vs : list bytes) : list Field :=
  match fs, vs with
  | f :: fs', v :: vs' => store f v :: fill_row fs' vs'
  | _, _ => fs
  end.

(** One scan: [rnd_init], then two calls of [rnd_next]. *)
Definition scan_cycle (scan : bool) (buf : bytes) : M (Z * Z) :=
  rnd_init scan ;;
  first <- rnd_next buf ;;
  second <- rnd_next buf ;;
  ret (first, second).

Fixpoint scan_cycles (n : nat) (scan : bool) (buf : bytes) : M (list (Z * Z)) :=
  match n with
  | O => ret []
  | S n' =>
      r <- scan_cycle scan buf ;;
      rs <- scan_cycles n' scan buf ;;
      ret (r :: rs)
  end.

(** A table whose four columns are the four attributes. *)
Definition attribute_columns (n1 n2 n3 n4 : nat) : list Field :=
  [ mkField IRCON_COMMAND_MODE n1 [];
    mkField IRCON_COMMAND_TEMPERATURE n2 [];
    mkField IRCON_COMMAND_POWER n3 [];
    mkField IRCON_COMMAND_ANGLE n4 [] ].

(** Open, write one row, scan it back. *)
Definition write_then_scan (L : nat) (D : Z) (os : answers) (row : list bytes)
  : M (Z * Z * Z * Z) :=
  r1 <- open L D os [] 0%Z 0%Z ;;
  update (fun w => set_field (fill_row (field w) row) w) ;;
  r2 <- write_row [] ;;
  r3 <- rnd_init true ;;
  r4 <- rnd_next [] ;;
  ret (r1, r2, r3, r4).

(** Storage of four arrays of [n] cells each, as [new] may hand it out. *)
Definition raw_share (n : nat) : Ircon_share :=
  mkShare 0 true (repeat "x"%char n) (repeat "x"%char n)
          (repeat "x"%char n) (repeat "x"%char n).

(** A share as [open] leaves it on descriptor [fd], arrays of 16 cells. *)
Definition fresh_share (fd : Z) : Ircon_share :=
  set_socket fd (set_socket_opened true (reset_share 16 (raw_share 16))).

(** The world [open] leaves when it connects: the share reset and marked
    connected, and the two system calls. *)
Definition opened_world (L : nat) (D : Z) (os : answers) (w : world)
           (host : bytes) (p : Z) : world :=
  mkWorld (table_name w) (field w)
    (Some (reset_share L
             (set_socket_opened true (set_socket (ret_socket os) (share_at_open os w)))))
    (next_is_eof w) (stats_records w)
    (trace w ++ [EvSocket (ret_socket os);
                 EvConnect (ret_socket os) host
                   (CLib.uint16 (if (p =? 0)%Z then D else p)) (ret_connect os)]).

(** The four transmissions of one token on [fd], after [w]. *)
Definition sent_token (fd : Z) (name v : bytes) (w : world) : world :=
  log (EvSend fd (lit ","))
    (log (EvSend fd v) (log (EvSend fd (lit ":")) (log (EvSend fd name) w))).

(** The world [rnd_next] leaves when it returns a row. *)
Definition scanned_world (s : Ircon_share) (w : world) : world :=
  mkWorld (table_name w) (map (fun f => store f (scan_value s f)) (field w)) (share w)
          true (incr_records (stats_records w)) (trace w).

(** What a write leaves in place: the socket of the share, and the system
    calls made before it. *)
Definition extends (w w' : world) : Prop :=
  (exists t, trace w' = trace w ++ t) /\
  (forall sh, share w = Some sh ->
              exists sh', share w' = Some sh' /\ socket sh' = socket sh).

(** The row of the end-to-end run, and the bytes its write puts on the wire. *)
Definition heat_row : list bytes := [lit "heat"; []; []; []].

Definition all_tokens : bytes :=
  lit "mode:heat,temperature:unknown,power:unknown,angle:unknown," ++ [LF].

(** The bytes on the wire after the end-to-end run on arrays of [L] cells. *)
Definition write_then_scan_wire (L : nat) (D : Z) : option bytes :=
  match run (write_then_scan L D (mkAnswers 3 0 (raw_share L)) heat_row)
            (mkWorld (lit "host:9000") (attribute_columns 16 16 16 16) None false 0 [])
  with
  | inr (_, w) => Some (wire (trace w))
  | inl _ => None
  end.

(** The ports of the [connect] calls of one [open] of the table [name]. *)
Definition open_ports (L : nat) (D : Z) (name : bytes) : option (list Z) :=
  match run (open L D (mkAnswers 3 0 (raw_share L)) [] 0%Z 0%Z)
            (mkWorld name [] None false 0 [])
  with
  | inr (_, w) => Some (connect_ports (trace w))
  | inl _ => None
  end.

(** A table of three columns with a row to write: a mode, and an empty
    temperature and power; the share is connected on descriptor 3. *)
Definition demo_mode : Field := mkField IRCON_COMMAND_MODE 16 (lit "heat").
Definition demo_temperature : Field := mkField IRCON_COMMAND_TEMPERATURE 16 [].
Definition demo_power : Field := mkField IRCON_COMMAND_POWER 16 [].

Definition demo_world : world :=
  mkWorld (lit "host:9000") [demo_mode; demo_temperature; demo_power]
          (Some (fresh_share 3)) false 0 [].

(** That world once [write_update_row] is past the first column, the share
    then, and the world once the token of the second column is out and the
    third column is done. *)
Definition demo_after_mode : world :=
  match run (write_update_field demo_mode) demo_world with
  | inr (_, w) => w
  | inl _ => demo_world
  end.

Definition demo_share : Ircon_share :=
  match share demo_after_mode with
  | Some s => s
  | None => fresh_share 3
  end.

Definition demo_after_power : world :=
  match run (write_update_field demo_power)
            (sent_token 3 IRCON_COMMAND_TEMPERATURE IRCON_COMMAND_UNKNOWN demo_after_mode)
  with
  | inr (_, w) => w
  | inl _ => demo_world
  end.

(** A table with one column whose name is the first letter of an attribute
    name, and a table whose one column carries a value of [n] characters. *)
Definition prefix_column : Field := mkField (lit "m") 16 (lit "cool").

Definition prefix_world : world :=
  mkWorld (lit "host:9000") [prefix_column] (Some (fresh_share 3)) false 0 [].

Definition long_column (n : nat) : Field :=
  mkField IRCON_COMMAND_MODE 32 (repeat "a"%char n).

Definition long_world : world :=
  mkWorld (lit "host:9000") [] (Some (fresh_share 3)) false 0 [].

(** ** The rest of the handler, and the vocabulary of the further properties *)

(** The cached strings of the four attributes, and the command a row encodes
    to: for each column in table order that the write takes for an attribute,
    [name:value,] where the value is the column's up to its first zero byte,
    or the cached one when the column is empty. *)
Record cache := mkCache {
  c_mode : bytes;
  c_temperature : bytes;
  c_power : bytes;
  c_angle : bytes
}.

Definition cache_get (a : attr) (c : cache) : bytes :=
  match a with
  | Mode => c_mode c
  | Temperature => c_temperature c
  | Power => c_power c
  | Angle => c_angle c
  end.

Definition cache_set (a : attr) (v : bytes) (c : cache) : cache :=
  match a with
  | Mode => mkCache v (c_temperature c) (c_power c) (c_angle c)
  | Temperature => mkCache (c_mode c) v (c_power c) (c_angle c)
  | Power => mkCache (c_mode c) (c_temperature c) v (c_angle c)
  | Angle => mkCache (c_mode c) (c_temperature c) (c_power c) v
  end.

Definition cache_of (s : Ircon_share) : cache :=
  mkCache (CLib.cstr (state_mode s)) (CLib.cstr (state_temperature s))
          (CLib.cstr (state_power s)) (CLib.cstr (state_angle s)).

Fixpoint row_tokens (c : cache) (fs : list Field) : list bytes * cache :=
  match fs with
  | [] => ([], c)
  | f :: r =>
      match write_target (field_name f) with
      | None => row_tokens c r
      | Some a =>
          let v := if 0 <? length (val_str f) then CLib.cstr (val_str f) else cache_get a c in
          let rest := row_tokens (cache_set a v c) r in
          (CLib.cstr (field_name f) :: lit ":" :: v :: lit "," :: fst rest, snd rest)
      end
  end.

(** What a write or a scan leaves alone in the handler and its table. *)
Definition same_table (w w' : world) : Prop :=
  table_name w' = table_name w /\ field w' = field w /\
  next_is_eof w' = next_is_eof w /\ stats_records w' = stats_records w.

(** What a write does to a share [s] with the columns [fs], as [s']. *)
Definition written (fs : list Field) (s s' : Ircon_share) : Prop :=
  terminated s' /\
  socket s' = socket s /\ socket_opened s' = socket_opened s /\
  (forall a, length (state a s') = length (state a s)) /\
  cache_of s' = snd (row_tokens (cache_of s) fs) /\
  (forall a, (forall f, In f fs -> write_target (field_name f) = Some a -> val_str f = []) ->
             state a s' = state a s).

(** Every matched column of [fs] has a value shorter than its array in [s]. *)
Definition fits (fs : list Field) (s : Ircon_share) : Prop :=
  forall f a, In f fs -> write_target (field_name f) = Some a ->
              length (val_str f) < length (state a s).

(** The value a column of the row leaves in the cache: its own, or the one
    cached before when it is empty. *)
Definition pick (v old : bytes) : bytes := if 0 <? length v then v else CLib.cstr old.


(** [ha_ircon::rnd_end], [ha_ircon::position], [ha_ircon::extra],
    [ha_ircon::external_lock], [ha_ircon::delete_table], [ha_ircon::create],
    [ha_ircon::init_writer]: nothing is done. *)
Definition rnd_end : M Z := ret 0%Z.

Definition position (record : bytes) : M unit := ret tt.

Definition extra (operation : Z) : M Z := ret 0%Z.

Definition external_lock (lock_type : Z) : M Z := ret 0%Z.

Definition delete_table (name : bytes) : M Z := ret 0%Z.

Definition create (name : bytes) : M Z := ret 0%Z.

Definition init_writer (ip : bytes) : M Z := ret 0%Z.

(** [ha_ircon::info]. *)
Definition info (flag : Z) : M Z :=
  update (set_stats_records 2) ;; ret 0%Z.

(** [ha_ircon::records_in_range]. *)
Definition records_in_range (inx : Z) (min_key max_key : bytes) : M Z := ret 10%Z.

(** The two lock types [store_lock] tests for (thr_lock.h of the server). *)
Definition TL_IGNORE : Z := (-1).
Definition TL_UNLOCK : Z := 0.

(** [ha_ircon::store_lock] on the type of the handler's lock and the array
    [to], to which the address [me] of that lock is appended. *)
Definition store_lock {A} (me : A) (lock_type : Z) (st : Z * list A) : Z * list A :=
  let lock_type' :=
    if negb (lock_type =? TL_IGNORE)%Z && (fst st =? TL_UNLOCK)%Z then lock_type else fst st in
  (lock_type', snd st ++ [me]).

(** [n] calls of [rnd_next] in a row. *)
Fixpoint rnd_nexts (n : nat) (buf : bytes) : M (list Z) :=
  match n with
  | O => ret []
  | S n' => r <- rnd_next buf ;; rs <- rnd_nexts n' buf ;; ret (r :: rs)
  end.


(** The world [close] leaves. *)
Definition closed_world (s : Ircon_share) (w : world) : world :=
  mkWorld (table_name w) (field w) (Some (set_socket_opened false s))
          (next_is_eof w) (stats_records w)
          (trace w ++ [EvShutdown (socket s); EvClose (socket s)]).

(** A table whose four columns are the four attributes, with a row in them. *)
Definition attribute_row (n1 n2 n3 n4 : nat) (v1 v2 v3 v4 : bytes) : list Field :=
  [ mkField IRCON_COMMAND_MODE n1 v1;
    mkField IRCON_COMMAND_TEMPERATURE n2 v2;
    mkField IRCON_COMMAND_POWER n3 v3;
    mkField IRCON_COMMAND_ANGLE n4 v4 ].


(** The requests [store_lock] receives, one after the other. *)
Definition store_locks {A} (me : A) (reqs : list Z) (st : Z * list A) : Z * list A :=
  fold_left (fun s t => store_lock me t s) reqs st.


(** The calls the server makes on a handler; a write or an update comes with
    the row the server has put in the columns. *)
Inductive call :=
| CallOpen (os : answers)
| CallClose
| CallWrite (row : list bytes)
| CallUpdate (row : list bytes)
| CallDelete
| CallRndInit
| CallRndNext
| CallRndEnd
| CallInfo.

Section Calls.

Variable IRCON_COMMAND_LENGTH : nat.
Variable IRCON_DEFAULT_PORT : Z.

Definition perform (c : call) : M Z :=
  match c with
  | CallOpen os => open IRCON_COMMAND_LENGTH IRCON_DEFAULT_PORT os [] 0%Z 0%Z
  | CallClose => close
  | CallWrite row => update (fun w => set_field (fill_row (field w) row) w) ;; write_row []
  | CallUpdate row => update (fun w => set_field (fill_row (field w) row) w) ;; update_row [] []
  | CallDelete => delete_row IRCON_COMMAND_LENGTH []
  | CallRndInit => rnd_init true
  | CallRndNext => rnd_next []
  | CallRndEnd => rnd_end
  | CallInfo => info 0%Z
  end.

Fixpoint perform_all (cs : list call) : M (list Z) :=
  match cs with
  | [] => ret []
  | c :: r => x <- perform c ;; xs <- perform_all r ;; ret (x :: xs)
  end.

End Calls.

(** The storage handed to an [open] has room for the reset. *)
Definition call_ok (L : nat) (c : call) : Prop :=
  match c with
  | CallOpen os => roomy L (heap_share os)
  | _ => True
  end.

(** What every call keeps of a share, once there is one: room for the reset
    in each array, and terminated strings while it is marked connected. *)
Definition kept (L : nat) (w : world) : Prop :=
  match share w with
  | None => True
  | Some sh => roomy L sh /\ (socket_opened sh = true -> terminated sh)
  end.

(** The descriptors a list of system calls leaves open. *)
Definition descriptor_step (l : list Z) (e : event) : list Z :=
  match e with
  | EvSocket fd => if (fd <? 0)%Z then l else fd :: l
  | EvClose fd => remove Z.eq_dec fd l
  | _ => l
  end.

Definition descriptors (t : list event) : list Z := fold_left descriptor_step t [].

(** The descriptor of the share is the one open descriptor while the share is
    marked connected, and none is open otherwise. *)
Definition one_socket (w : world) : Prop :=
  descriptors (trace w) =
    match share w with
    | Some sh => if socket_opened sh then [socket sh] else []
    | None => []
    end.

(** What a write changes: the share (its socket and flag apart) and the
    transmissions it appends. *)
Definition wrote (sh : Ircon_share) (w w' : world) : Prop :=
  exists sh' ps,
    share w' = Some sh' /\ socket sh' = socket sh /\ socket_opened sh' = socket_opened sh /\
    (forall a, length (state a sh') = length (state a sh)) /\
    (terminated sh -> terminated sh') /\
    trace w' = trace w ++ map (EvSend (socket sh)) ps.

(** What one call changes of the share and of the system calls. *)
Inductive effect (L : nat) (w w' : world) : Prop :=
| NoEffect : share w' = share w -> trace w' = trace w -> effect L w w'
| Connected (fd : Z) (sh0 : Ircon_share) (host : bytes) (port rc : Z) :
    (forall s, share w = Some s -> s = sh0 /\ socket_opened s = false) ->
    roomy L sh0 -> (0 <= fd)%Z ->
    share w' = Some (reset_share L (set_socket_opened true (set_socket fd sh0))) ->
    trace w' = trace w ++ [EvSocket fd; EvConnect fd host port rc] ->
    effect L w w'
| SocketFailed (fd : Z) (sh0 : Ircon_share) :
    (forall s, share w = Some s -> s = sh0) -> socket_opened sh0 = false ->
    roomy L sh0 -> (fd < 0)%Z ->
    share w' = Some (set_socket fd sh0) ->
    trace w' = trace w ++ [EvSocket fd] ->
    effect L w w'
| Closed (sh : Ircon_share) :
    share w = Some sh ->
    share w' = Some (set_socket_opened false sh) ->
    trace w' = trace w ++ [EvShutdown (socket sh); EvClose (socket sh)] ->
    effect L w w'
| Wrote (sh : Ircon_share) : share w = Some sh -> wrote sh w w' -> effect L w w'
| Deleted (sh : Ircon_share) :
    share w = Some sh -> roomy L sh ->
    share w' = Some (reset_share L sh) ->
    trace w' = trace w ++ [EvSend (socket sh) (lit "mode:-," ++ [LF])] ->
    effect L w w'.


(** A history: open, write a row, close, open again, scan. *)
Definition demo_calls : list call :=
  [ CallOpen (mkAnswers 3 0 (raw_share 16)); CallWrite heat_row; CallInfo; CallClose;
    CallOpen (mkAnswers 4 (-1) (raw_share 16)); CallUpdate heat_row; CallDelete;
    CallRndInit; CallRndNext; CallRndNext; CallRndEnd ].

Definition demo_start : world :=
  mkWorld (lit "host:9000") (attribute_columns 16 16 16 16) None false 0 [].

Definition demo_results : list Z :=
  match run (perform_all 16 51000 demo_calls) demo_start with
  | inr (rs, _) => rs
  | inl _ => []
  end.

Definition demo_end : world :=
  match run (perform_all 16 51000 demo_calls) demo_start with
  | inr (_, w) => w
  | inl _ => demo_start
  end.

Definition demo_end_share : Ircon_share :=
  match share demo_end with
  | Some s => s
  | None => raw_share 0
  end.

(** ** The libc routines on arrays *)

Module CFacts.
Import CLib.

Lemma cstr_length s : length (cstr s) <= length s.
Proof. induction s as [|c r IH]; simpl; [lia|]. destruct (Ascii.eqb c NUL); simpl; lia. Qed.

Lemma cstr_clean s : Forall (fun c => c <> NUL) s -> cstr s = s.
Proof.
  induction 1 as [|c r Hc _ IH]; simpl; [reflexivity|].
  destruct (Ascii.eqb_spec c NUL); [contradiction|]. now rewrite IH.
Qed.

Lemma cstr_Forall s : Forall (fun c => c <> NUL) (cstr s).
Proof.
  induction s as [|c r IH]; simpl; [constructor|].
  destruct (Ascii.eqb_spec c NUL); [constructor|]. now constructor.
Qed.

(** Reading an array whose string is followed by a terminator. *)
Lemma strlen_arr_app s r :
  Forall (fun c => c <> NUL) s -> strlen_arr (s ++ NUL :: r) = Some (length s).
Proof.
  induction 1 as [|c t Hc _ IH]; simpl; [reflexivity|].
  destruct (Ascii.eqb_spec c NUL); [contradiction|]. now rewrite IH.
Qed.

Lemma string_of_arr_app s r :
  Forall (fun c => c <> NUL) s -> string_of_arr (s ++ NUL :: r) = Some s.
Proof.
  intros H. unfold string_of_arr. rewrite strlen_arr_app by assumption. simpl.
  now rewrite firstn_app, Nat.sub_diag, firstn_all, firstn_O, app_nil_r.
Qed.

Lemma strlen_arr_cstr buf n : strlen_arr buf = Some n -> firstn n buf = cstr buf.
Proof.
  revert n. induction buf as [|c r IH]; simpl; intros n H; [discriminate|].
  destruct (Ascii.eqb c NUL).
  - injection H as <-. reflexivity.
  - destruct (strlen_arr r) as [m|]; [|discriminate]. injection H as <-.
    simpl. now rewrite IH.
Qed.

Lemma string_of_arr_cstr buf v : string_of_arr buf = Some v -> v = cstr buf.
Proof.
  unfold string_of_arr. destruct (strlen_arr buf) as [n|] eqn:E; [|discriminate].
  simpl. intros [= <-]. now apply strlen_arr_cstr.
Qed.

Lemma strlen_firstn s : firstn (strlen s) s = cstr s.
Proof.
  unfold strlen. induction s as [|c r IH]; simpl; [reflexivity|].
  destruct (Ascii.eqb c NUL); simpl; [reflexivity|]. now rewrite IH.
Qed.

Lemma strncpy_fits dst src n :
  n <= length dst ->
  strncpy dst src n =
    Some (firstn n (cstr src) ++ repeat NUL (n - length (firstn n (cstr src))) ++ skipn n dst).
Proof.
  intros H. unfold strncpy. destruct (Nat.leb_spec n (length dst)); [reflexivity | lia].
Qed.

Lemma strncpy_length dst src n b : strncpy dst src n = Some b -> length b = length dst.
Proof.
  unfold strncpy. destruct (Nat.leb_spec n (length dst)); [|discriminate].
  intros [= <-]. rewrite !length_app, repeat_length, length_skipn.
  assert (length (firstn n (cstr src)) <= n) by (rewrite length_firstn; lia). lia.
Qed.

Lemma poke_overrun dst i c : length dst <= i -> poke dst i c = None.
Proof.
  intros H. unfold poke. destruct (Nat.ltb_spec i (length dst)); [lia | reflexivity].
Qed.

(** The sentinel copied over [n] cells, [n] large enough for its terminator. *)
Lemma strncpy_unknown dst n :
  8 <= n -> n <= length dst ->
  exists b, strncpy dst IRCON_COMMAND_UNKNOWN n = Some b /\
            string_of_arr b = Some IRCON_COMMAND_UNKNOWN /\
            length b = length dst.
Proof.
  intros H8 Hn. eexists. split; [apply strncpy_fits; assumption|]. split.
  - assert (E : firstn n (cstr IRCON_COMMAND_UNKNOWN) = IRCON_COMMAND_UNKNOWN).
    { change (cstr IRCON_COMMAND_UNKNOWN) with IRCON_COMMAND_UNKNOWN.
      apply firstn_all2. simpl. lia. }
    rewrite E. change (length IRCON_COMMAND_UNKNOWN) with 7.
    replace (n - 7) with (S (n - 8)) by lia. simpl repeat.
    apply (string_of_arr_app IRCON_COMMAND_UNKNOWN).
    repeat constructor; discriminate.
  - eapply strncpy_length. apply strncpy_fits; assumption.
Qed.

Lemma cache_store_fits dst v :
  length v < length dst ->
  exists b, cache_store dst v = Some b /\ string_of_arr b = Some (cstr v) /\
            length b = length dst.
Proof.
  intros H. unfold cache_store.
  rewrite strncpy_fits by lia.
  rewrite (firstn_all2 (cstr v) (cstr_length v)).
  set (k := length v - length (cstr v)).
  set (b0 := cstr v ++ repeat NUL k ++ skipn (length v) dst).
  assert (Hb0 : length b0 = length dst).
  { unfold b0, k. rewrite !length_app, repeat_length, length_skipn.
    pose proof (cstr_length v). lia. }
  unfold poke. destruct (Nat.ltb_spec (length v) (length b0)); [|lia].
  eexists. split; [reflexivity|]. split.
  - assert (E : firstn (length v) b0 = cstr v ++ repeat NUL k).
    { unfold b0. rewrite app_assoc, firstn_app.
      replace (length v - length (cstr v ++ repeat NUL k)) with 0.
      - rewrite firstn_O, app_nil_r. apply firstn_all2.
        rewrite length_app, repeat_length. unfold k. pose proof (cstr_length v). lia.
      - rewrite length_app, repeat_length. unfold k. pose proof (cstr_length v). lia. }
    rewrite E, <- app_assoc.
    destruct k as [|k']; simpl repeat; simpl app; apply string_of_arr_app, cstr_Forall.
  - rewrite length_app.
    change (length (NUL :: skipn (S (length v)) b0))
      with (S (length (skipn (S (length v)) b0))).
    rewrite length_firstn, length_skipn. lia.
Qed.

Lemma cache_store_overrun dst v : length dst <= length v -> cache_store dst v = None.
Proof.
  intros H. unfold cache_store.
  destruct (strncpy dst v (length v)) as [b|] eqn:E; [|reflexivity].
  apply poke_overrun. rewrite (strncpy_length _ _ _ _ E). assumption.
Qed.

End CFacts.

Module AtoiFacts.
Import CLib.

(** [atoi] never reads past a terminator. *)
Lemma atoi_digits_stop s r acc :
  atoi_digits acc (s ++ NUL :: r) = atoi_digits acc (s ++ [NUL]).
Proof.
  revert acc. induction s as [|c t IH]; intros acc; simpl; [reflexivity|].
  destruct (isdigit c); [apply IH | reflexivity].
Qed.

Lemma atoi_signed_stop s r : atoi_signed (s ++ NUL :: r) = atoi_signed (s ++ [NUL]).
Proof.
  destruct s as [|c t]; [reflexivity|].
  change ((c :: t) ++ NUL :: r) with (c :: (t ++ NUL :: r)).
  change ((c :: t) ++ [NUL]) with (c :: (t ++ [NUL])).
  unfold atoi_signed.
  destruct (Ascii.eqb c "-"); [now rewrite atoi_digits_stop|].
  destruct (Ascii.eqb c "+"); [now rewrite atoi_digits_stop|].
  apply (atoi_digits_stop (c :: t)).
Qed.

Lemma atoi_spaces_stop s r : atoi_spaces (s ++ NUL :: r) = atoi_spaces (s ++ [NUL]).
Proof.
  induction s as [|c t IH]; [reflexivity|].
  change ((c :: t) ++ NUL :: r) with (c :: (t ++ NUL :: r)).
  change ((c :: t) ++ [NUL]) with (c :: (t ++ [NUL])).
  cbn [atoi_spaces]. destruct (isspace c); [apply IH|].
  apply (atoi_signed_stop (c :: t)).
Qed.

Lemma atoi_stop s r : atoi (s ++ NUL :: r) = atoi (s ++ [NUL]).
Proof. unfold atoi. now rewrite atoi_spaces_stop. Qed.

End AtoiFacts.

(** ** Cutting the identifier *)

Lemma split_colon_some s host seg :
  split_colon s = (host, Some seg) ->
  s = host ++ ":"%char :: seg /\ Forall (fun c => c <> ":"%char) host.
Proof.
  revert host. induction s as [|c r IH]; simpl; intros host H; [discriminate|].
  destruct (Ascii.eqb_spec c ":").
  - injection H as <- <-. subst c. split; [reflexivity | constructor].
  - destruct (split_colon r) as [h p] eqn:E. simpl in H. injection H as <- ->.
    destruct (IH h eq_refl) as [-> Hh]. split; [reflexivity | now constructor].
Qed.

Lemma split_colon_none s host :
  split_colon s = (host, None) -> host = s /\ Forall (fun c => c <> ":"%char) s.
Proof.
  revert host. induction s as [|c r IH]; simpl; intros host H.
  - injection H as <-. split; [reflexivity | constructor].
  - destruct (Ascii.eqb_spec c ":"); [discriminate|].
    destruct (split_colon r) as [h p] eqn:E. simpl in H. injection H as <- ->.
    destruct (IH h eq_refl) as [-> Hr]. split; [reflexivity | now constructor].
Qed.

Lemma find_colon_found host r i :
  Forall (fun c => c <> ":"%char) host ->
  find_colon (host ++ ":"%char :: r) i = Some (i + length host).
Proof.
  intros H. revert i. induction H as [|c t Hc _ IH]; intros i; simpl.
  - f_equal. lia.
  - destruct (Ascii.eqb_spec c ":"); [contradiction|]. rewrite IH. f_equal. lia.
Qed.

Lemma find_colon_absent s k i :
  Forall (fun c => c <> ":"%char) s -> find_colon (s ++ repeat NUL k) i = None.
Proof.
  intros H. revert i. induction H as [|c t Hc _ IH]; intros i; simpl.
  - revert i. induction k as [|k IHk]; intros i; simpl; [reflexivity | apply IHk].
  - destruct (Ascii.eqb_spec c ":"); [contradiction | apply IH].
Qed.

(** ** Running the handler *)

Lemma run_ret A (a : A) w : run (ret a) w = inr (a, w).
Proof. reflexivity. Qed.

Lemma run_bind A B (c : M A) (k : A -> M B) w :
  run (bind c k) w =
    match run c w with
    | inl f => inl f
    | inr (a, w') => run (k a) w'
    end.
Proof. unfold run. simpl. destruct (runStateT c w) as [|[]]; reflexivity. Qed.

Lemma run_get w : run get w = inr (w, w).
Proof. reflexivity. Qed.

Lemma run_put w' w : run (put w') w = inr (tt, w').
Proof. reflexivity. Qed.

Lemma run_update f w : run (update f) w = inr (tt, f w).
Proof. reflexivity. Qed.

Lemma run_defined A f (a : A) w : run (defined f (Some a)) w = inr (a, w).
Proof. reflexivity. Qed.

Lemma run_undefined A f w : run (defined f (@None A)) w = inl f.
Proof. reflexivity. Qed.

Lemma run_send fd p w : run (send fd p) w = inr (tt, log (EvSend fd p) w).
Proof. reflexivity. Qed.

Lemma run_the_share w s : share w = Some s -> run the_share w = inr (s, w).
Proof. intros H. unfold the_share. rewrite run_bind, run_get, H. reflexivity. Qed.

Lemma run_the_share_null w : share w = None -> run the_share w = inl NullShare.
Proof. intros H. unfold the_share. rewrite run_bind, run_get, H. reflexivity. Qed.

Lemma Forall_app_l {A} (P : A -> Prop) l1 l2 : Forall P (l1 ++ l2) -> Forall P l1.
Proof. intros H. apply Forall_app in H. tauto. Qed.

Lemma split_ip_port_run name host seg p w :
  Forall (fun c => c <> NUL) name -> length name < 32 ->
  split_colon name = (host, seg) -> segment_port seg = Some p ->
  exists b, run (split_ip_port name) w = inr ((b, p), w) /\
            CLib.string_of_arr b = Some host.
Proof.
  intros Hnul Hlen Hsplit Hport. unfold split_ip_port.
  rewrite run_bind, CFacts.strncpy_fits by (rewrite repeat_length; lia).
  rewrite (CFacts.cstr_clean name Hnul), firstn_all2 by lia.
  rewrite skipn_all2 by (rewrite repeat_length; lia).
  rewrite app_nil_r, run_defined.
  remember (32 - length name) as k eqn:Ek.
  destruct k as [|k]; [lia|].
  destruct seg as [sg|].
  - apply split_colon_some in Hsplit. destruct Hsplit as [-> Hcolon].
    rewrite <- app_assoc. cbn [app].
    rewrite find_colon_found by assumption. cbn [Nat.add].
    rewrite length_app in Hlen. cbn [length] in Hlen.
    assert (Hpoke : CLib.poke (host ++ ":"%char :: sg ++ repeat NUL (S k)) (length host) NUL
                    = Some (host ++ NUL :: sg ++ repeat NUL (S k))).
    { unfold CLib.poke.
      destruct (Nat.ltb_spec (length host)
                  (length (host ++ ":"%char :: sg ++ repeat NUL (S k)))) as [_|Hge].
      - rewrite firstn_app, Nat.sub_diag, firstn_all, firstn_O, app_nil_r.
        rewrite skipn_app, skipn_all2 by lia.
        replace (S (length host) - length host) with 1 by lia. reflexivity.
      - rewrite length_app in Hge. cbn [length] in Hge. lia. }
    rewrite run_bind, Hpoke, run_defined.
    destruct (Nat.ltb_spec (length host) 31); [|lia].
    rewrite skipn_app, skipn_all2 by lia.
    replace (length host + 1 - length host) with 1 by lia.
    cbn [app skipn repeat].
    rewrite AtoiFacts.atoi_stop. cbn [segment_port] in Hport. rewrite Hport.
    rewrite run_bind, run_defined, run_ret.
    eexists. split; [reflexivity|].
    apply Forall_app_l in Hnul. now apply CFacts.string_of_arr_app.
  - apply split_colon_none in Hsplit. destruct Hsplit as [-> Hcolon].
    rewrite (find_colon_absent name (S k) 0 Hcolon), run_ret.
    injection Hport as <-. eexists. split; [reflexivity|].
    cbn [repeat]. now apply CFacts.string_of_arr_app.
Qed.

Ltac world :=
  unfold sent_token, opened_world, scanned_world,
    set_share, set_field, set_next_is_eof, set_stats_records, log;
  cbn [table_name field share next_is_eof stats_records trace].

Ltac run_step :=
  first [ rewrite run_bind | rewrite run_ret | rewrite run_get | rewrite run_put
        | rewrite run_update | rewrite run_defined | rewrite run_undefined
        | rewrite run_send
        | erewrite run_the_share by (world; first [eassumption | reflexivity]) ];
  cbv beta iota.

Ltac run_steps := cbv beta iota zeta; repeat run_step.

Lemma set_share_same w s : share w = Some s -> set_share s w = w.
Proof. destruct w; simpl. now intros ->. Qed.

Lemma get_share_run raw w os :
  raw = heap_share os ->
  run (get_share raw) w = inr (share_at_open os w, set_share (share_at_open os w) w).
Proof.
  intros ->. unfold get_share, share_at_open. rewrite run_bind, run_get.
  destruct (share w) as [s|] eqn:E.
  - rewrite run_ret, set_share_same by assumption. reflexivity.
  - rewrite run_bind, run_put, run_ret. reflexivity.
Qed.

(** *** Resetting the cache *)

Lemma reset_state_run L a w sh :
  share w = Some sh -> L <= length (state a sh) ->
  run (reset_state L a) w =
    inr (tt, set_share (set_state a (reset_arr L (state a sh)) sh) w).
Proof.
  intros Hs Hl. unfold reset_state, reset_arr.
  rewrite run_bind, (run_the_share _ _ Hs), run_bind.
  rewrite CFacts.strncpy_fits by assumption.
  rewrite run_defined, run_update. reflexivity.
Qed.

Lemma reset_all_run L A (k : M A) w sh :
  share w = Some sh -> roomy L sh ->
  run (reset_state L Mode ;; reset_state L Temperature ;;
       reset_state L Power ;; reset_state L Angle ;; k) w =
    run k (set_share (reset_share L sh) w).
Proof.
  intros Hs Hr.
  rewrite run_bind, (reset_state_run L Mode w sh Hs (Hr Mode)).
  rewrite run_bind.
  erewrite (reset_state_run L Temperature); [|reflexivity|apply (Hr Temperature)].
  rewrite run_bind.
  erewrite (reset_state_run L Power); [|reflexivity|apply (Hr Power)].
  rewrite run_bind.
  erewrite (reset_state_run L Angle); [|reflexivity|apply (Hr Angle)].
  destruct w; reflexivity.
Qed.

Lemma reset_share_state L a sh : state a (reset_share L sh) = reset_arr L (state a sh).
Proof. destruct a; reflexivity. Qed.

Lemma reset_arr_length L dst : length (reset_arr L dst) = length dst.
Proof.
  unfold reset_arr. destruct (CLib.strncpy dst IRCON_COMMAND_UNKNOWN L) eqn:E;
    [now apply CFacts.strncpy_length in E | reflexivity].
Qed.

Lemma reset_arr_unknown L dst :
  8 <= L -> L <= length dst ->
  CLib.string_of_arr (reset_arr L dst) = Some IRCON_COMMAND_UNKNOWN.
Proof.
  intros H8 Hl. unfold reset_arr.
  destruct (CFacts.strncpy_unknown dst L H8 Hl) as (b & -> & Hb & _). exact Hb.
Qed.

Lemma reset_share_cached L a sh :
  8 <= L -> roomy L sh -> cached a (reset_share L sh) = Some IRCON_COMMAND_UNKNOWN.
Proof.
  intros H8 Hr. unfold cached. rewrite reset_share_state.
  apply reset_arr_unknown; [assumption | apply Hr].
Qed.

Lemma reset_share_roomy L n sh : roomy n sh -> roomy n (reset_share L sh).
Proof. intros Hr a. rewrite reset_share_state, reset_arr_length. apply Hr. Qed.

Lemma cached_terminated a sh v : cached a sh = Some v -> v = CLib.cstr (state a sh).
Proof. apply CFacts.string_of_arr_cstr. Qed.

Lemma reset_share_terminated L sh : 8 <= L -> roomy L sh -> terminated (reset_share L sh).
Proof.
  intros H8 Hr a. pose proof (reset_share_cached L a sh H8 Hr) as E.
  rewrite E. f_equal. now apply cached_terminated.
Qed.

(** *** Opening *)

Lemma open_run L D os nm mode tl w host seg p :
  socket_opened (share_at_open os w) = false ->
  (0 <= ret_socket os)%Z ->
  Forall (fun c => c <> NUL) (table_name w) -> length (table_name w) < 32 ->
  split_colon (table_name w) = (host, seg) -> segment_port seg = Some p ->
  roomy L (share_at_open os w) ->
  run (open L D os nm mode tl) w = inr (0%Z, opened_world L D os w host p).
Proof.
  intros Hclosed Hfd Hnul Hlen Hsplit Hport Hroom. unfold open.
  rewrite run_bind, (get_share_run _ w os eq_refl), Hclosed. cbn [negb].
  rewrite run_bind, run_update, run_bind, run_update.
  destruct (Z.ltb_spec (ret_socket os) 0); [lia|].
  rewrite run_bind, run_get. cbn [table_name set_share log].
  destruct (split_ip_port_run (table_name w) host seg p
              (set_share (set_socket (ret_socket os) (share_at_open os w))
                 (log (EvSocket (ret_socket os)) (set_share (share_at_open os w) w)))
              Hnul Hlen Hsplit Hport) as (b & Hrun & Hhost).
  cbn [table_name set_share log] in Hrun.
  rewrite run_bind, Hrun. cbn [fst snd].
  rewrite run_bind, Hhost, run_defined.
  rewrite run_bind. erewrite run_the_share by reflexivity.
  rewrite run_bind, run_update, run_bind, run_update.
  erewrite reset_all_run; [|reflexivity|].
  - rewrite run_ret. unfold opened_world. world. rewrite <- app_assoc. reflexivity.
  - intros a. destruct a; [apply (Hroom Mode) | apply (Hroom Temperature)
                           | apply (Hroom Power) | apply (Hroom Angle)].
Qed.

(** *** Writing *)

Lemma wire_app t1 t2 : wire (t1 ++ t2) = wire t1 ++ wire t2.
Proof.
  induction t1 as [|e t IH]; [reflexivity|].
  destruct e; cbn [app wire]; rewrite IH; [| |now rewrite app_assoc| |]; reflexivity.
Qed.

Lemma wire_sent_token fd name v w :
  wire (trace (sent_token fd name v w)) = wire (trace w) ++ name ++ lit ":" ++ v ++ lit ",".
Proof.
  unfold sent_token. world. rewrite !wire_app. cbn [wire]. rewrite !app_nil_r, <- !app_assoc.
  reflexivity.
Qed.

Lemma for_each_app A (body : A -> M unit) l1 l2 w :
  run (for_each body (l1 ++ l2)) w =
    match run (for_each body l1) w with
    | inl f => inl f
    | inr (_, w1) => run (for_each body l2) w1
    end.
Proof.
  revert w. induction l1 as [|x r IH]; intros w; cbn [app for_each].
  - rewrite run_ret. reflexivity.
  - rewrite !run_bind. destruct (run (body x) w) as [e|[[] w1]]; [reflexivity | apply IH].
Qed.

Lemma write_update_field_target f a w :
  write_target (field_name f) = Some a ->
  run (write_update_field f) w =
    run (cache_and_send a f ;; sh <- the_share ;; send (socket sh) (lit ",")) w.
Proof.
  unfold write_target, write_update_field.
  destruct (_ =? 0)%Z; [now intros [= <-]|].
  destruct (_ =? 0)%Z; [now intros [= <-]|].
  destruct (_ =? 0)%Z; [now intros [= <-]|].
  destruct (_ =? 0)%Z; [now intros [= <-]|]. discriminate.
Qed.

Lemma write_update_field_skip f w :
  write_target (field_name f) = None -> run (write_update_field f) w = inr (tt, w).
Proof.
  unfold write_target, write_update_field.
  repeat (destruct (_ =? 0)%Z; [discriminate|]). reflexivity.
Qed.

Lemma write_target_attr_name a : write_target (attr_name a) = Some a.
Proof. destruct a; reflexivity. Qed.

(** A column with an empty value: the cache is not touched, the token goes out. *)
Lemma write_update_field_keep f a w sh v :
  share w = Some sh -> write_target (field_name f) = Some a ->
  val_str f = [] -> cached a sh = Some v ->
  run (write_update_field f) w =
    inr (tt, sent_token (socket sh) (CLib.cstr (field_name f)) v w).
Proof.
  intros Hs Ht Hv Hc. rewrite (write_update_field_target f a w Ht).
  unfold cache_and_send. cbv zeta. rewrite Hv.
  change (0 <? length (@nil ascii)) with false. unfold cached in Hc.
  run_steps. rewrite Hc. run_steps. rewrite CFacts.strlen_firstn. reflexivity.
Qed.

(** A column with a value that fits: it replaces the cached value and is sent. *)
Lemma write_update_field_store f a w sh :
  share w = Some sh -> write_target (field_name f) = Some a ->
  0 < length (val_str f) -> length (val_str f) < length (state a sh) ->
  exists b,
    cache_store (state a sh) (val_str f) = Some b /\
    CLib.string_of_arr b = Some (CLib.cstr (val_str f)) /\
    length b = length (state a sh) /\
    run (write_update_field f) w =
      inr (tt, sent_token (socket sh) (CLib.cstr (field_name f)) (CLib.cstr (val_str f))
                 (set_share (set_state a b sh) w)).
Proof.
  intros Hs Ht Hpos Hfit.
  destruct (CFacts.cache_store_fits (state a sh) (val_str f) Hfit) as (b & Hb & Hread & Hlen).
  exists b. repeat split; try assumption.
  rewrite (write_update_field_target f a w Ht).
  unfold cache_and_send. cbv zeta.
  destruct (Nat.ltb_spec 0 (length (val_str f))); [|lia].
  unfold cache_store in Hb.
  assert (Hst : state a (set_state a b sh) = b) by (destruct a; reflexivity).
  run_steps.
  destruct (CLib.strncpy (state a sh) (val_str f) (length (val_str f))) as [b0|]; [|discriminate].
  run_steps. rewrite Hb. run_steps. rewrite Hst, Hread. run_steps.
  rewrite CFacts.strlen_firstn.
  assert (Hfd : socket (set_state a b sh) = socket sh) by (destruct a; reflexivity).
  rewrite Hfd. reflexivity.
Qed.

(** A column with a value as long as the array or longer: the copy or the
    terminator lands outside the array. *)
Lemma write_update_field_overrun f a w sh :
  share w = Some sh -> write_target (field_name f) = Some a ->
  0 < length (val_str f) -> length (state a sh) <= length (val_str f) ->
  run (write_update_field f) w = inl OutOfBounds.
Proof.
  intros Hs Ht Hpos Hover.
  pose proof (CFacts.cache_store_overrun (state a sh) (val_str f) Hover) as Hb.
  rewrite (write_update_field_target f a w Ht).
  unfold cache_and_send. cbv zeta.
  destruct (Nat.ltb_spec 0 (length (val_str f))); [|lia].
  unfold cache_store in Hb.
  run_steps.
  destruct (CLib.strncpy (state a sh) (val_str f) (length (val_str f))) as [b0|].
  - run_steps. rewrite Hb. run_steps. reflexivity.
  - run_steps. reflexivity.
Qed.

Lemma write_update_row_run w w1 sh :
  run (for_each write_update_field (field w)) w = inr (tt, w1) -> share w1 = Some sh ->
  run write_update_row w = inr (0%Z, log (EvSend (socket sh) [LF]) w1).
Proof.
  intros Hrun Hs. unfold write_update_row.
  run_steps. rewrite Hrun. run_steps. reflexivity.
Qed.

(** *** Scanning *)

Lemma state_cstr a sh : terminated sh -> CLib.string_of_arr (state a sh) = Some (CLib.cstr (state a sh)).
Proof. intros H. apply (H a). Qed.

Lemma rnd_next_field_run f w sh :
  share w = Some sh -> terminated sh ->
  run (rnd_next_field f) w = inr (store f (scan_value sh f), w).
Proof.
  intros Hs Ht. unfold rnd_next_field, scan_value, scan_source. cbv zeta.
  pose proof (state_cstr Mode sh Ht) as Hm. pose proof (state_cstr Temperature sh Ht) as Htm.
  pose proof (state_cstr Power sh Ht) as Hp. pose proof (state_cstr Angle sh Ht) as Ha.
  cbn [state] in Hm, Htm, Hp, Ha.
  destruct (_ =? 0)%Z; [run_steps; rewrite Hm; run_steps; reflexivity|].
  destruct (_ =? 0)%Z; [run_steps; rewrite Htm; run_steps; reflexivity|].
  destruct (_ =? 0)%Z; [run_steps; rewrite Hp; run_steps; reflexivity|].
  destruct (_ =? 0)%Z; [run_steps; rewrite Ha; run_steps; reflexivity|].
  run_steps. reflexivity.
Qed.

Lemma map_each_rnd_next_field fs w sh :
  share w = Some sh -> terminated sh ->
  run (map_each rnd_next_field fs) w = inr (map (fun f => store f (scan_value sh f)) fs, w).
Proof.
  intros Hs Ht. induction fs as [|f r IH]; cbn [map_each map]; run_steps; [reflexivity|].
  rewrite (rnd_next_field_run f w sh Hs Ht). run_steps. rewrite IH. run_steps. reflexivity.
Qed.

Lemma rnd_next_row buf w sh :
  share w = Some sh -> terminated sh -> next_is_eof w = false ->
  run (rnd_next buf) w = inr (0%Z, scanned_world sh w).
Proof.
  intros Hs Ht He. unfold rnd_next. run_steps. rewrite He. run_steps.
  rewrite (map_each_rnd_next_field (field w) w sh Hs Ht). run_steps. reflexivity.
Qed.

Lemma rnd_next_end buf w :
  next_is_eof w = true -> run (rnd_next buf) w = inr (HA_ERR_END_OF_FILE, w).
Proof. intros He. unfold rnd_next. run_steps. rewrite He. run_steps. reflexivity. Qed.

Lemma scan_twice sh fs :
  map (fun f => store f (scan_value sh f)) (map (fun f => store f (scan_value sh f)) fs)
  = map (fun f => store f (scan_value sh f)) fs.
Proof. rewrite map_map. apply map_ext. intros f. reflexivity. Qed.

Lemma scan_cycle_run scan buf w sh :
  share w = Some sh -> terminated sh ->
  run (scan_cycle scan buf) w = inr ((0%Z, HA_ERR_END_OF_FILE), scanned_world sh w).
Proof.
  intros Hs Ht. unfold scan_cycle, rnd_init. run_steps.
  erewrite rnd_next_row; [|world; eassumption|assumption|reflexivity]. cbv beta iota.
  rewrite run_bind, rnd_next_end by reflexivity. run_steps. reflexivity.
Qed.

(** *** What a write leaves in place *)

Lemma extends_refl w : extends w w.
Proof. split; [exists []; now rewrite app_nil_r | intros sh H; now exists sh]. Qed.

Lemma extends_trans w1 w2 w3 : extends w1 w2 -> extends w2 w3 -> extends w1 w3.
Proof.
  intros [[t1 H1] S1] [[t2 H2] S2]. split.
  - exists (t1 ++ t2). now rewrite H2, H1, app_assoc.
  - intros sh Hs. destruct (S1 sh Hs) as (sh' & Hs' & E1).
    destruct (S2 sh' Hs') as (sh'' & Hs'' & E2). exists sh''. split; [assumption | congruence].
Qed.

Lemma extends_log e w : extends w (log e w).
Proof. split; [now exists [e] | intros sh H; now exists sh]. Qed.

Lemma extends_sent_token fd name v w : extends w (sent_token fd name v w).
Proof.
  unfold sent_token.
  repeat (eapply extends_trans; [|apply extends_log]). apply extends_refl.
Qed.

Lemma extends_set_state a b w sh :
  share w = Some sh -> extends w (set_share (set_state a b sh) w).
Proof.
  intros Hs. split; [exists []; world; now rewrite app_nil_r|].
  intros sh0 H0. eexists. split; [reflexivity|].
  assert (sh0 = sh) by congruence. subst. destruct a; reflexivity.
Qed.

Lemma write_update_field_extends f w w' :
  run (write_update_field f) w = inr (tt, w') -> extends w w'.
Proof.
  destruct (write_target (field_name f)) as [a|] eqn:Ht.
  - rewrite (write_update_field_target f a w Ht).
    destruct (share w) as [sh|] eqn:Hs.
    + destruct (Nat.ltb_spec 0 (length (val_str f))) as [Hpos|Hzero].
      * destruct (Nat.ltb_spec (length (val_str f)) (length (state a sh))) as [Hfit|Hover].
        -- destruct (write_update_field_store f a w sh Hs Ht Hpos Hfit) as (b & _ & _ & _ & Hrun).
           rewrite <- (write_update_field_target f a w Ht), Hrun. intros [= <-].
           eapply extends_trans; [apply (extends_set_state a b w sh Hs)|].
           apply extends_sent_token.
        -- rewrite <- (write_update_field_target f a w Ht).
           rewrite (write_update_field_overrun f a w sh Hs Ht Hpos Hover). discriminate.
      * assert (Hv : val_str f = []) by (destruct (val_str f); [reflexivity | simpl in Hzero; lia]).
        destruct (cached a sh) as [v|] eqn:Hc.
        -- rewrite <- (write_update_field_target f a w Ht).
           rewrite (write_update_field_keep f a w sh v Hs Ht Hv Hc). intros [= <-].
           apply extends_sent_token.
        -- unfold cache_and_send. cbv zeta. rewrite Hv.
           change (0 <? length (@nil ascii)) with false. unfold cached in Hc.
           run_steps. rewrite Hc. run_steps. discriminate.
    + unfold cache_and_send. run_steps. rewrite (run_the_share_null w Hs). discriminate.
  - rewrite (write_update_field_skip f w Ht). intros [= <-]. apply extends_refl.
Qed.

Lemma for_each_write_extends fs w w' :
  run (for_each write_update_field fs) w = inr (tt, w') -> extends w w'.
Proof.
  revert w. induction fs as [|f r IH]; intros w; cbn [for_each]; run_steps.
  - intros [= <-]. apply extends_refl.
  - destruct (run (write_update_field f) w) as [e|[[] w1]] eqn:E; [discriminate|].
    intros H. eapply extends_trans; [apply (write_update_field_extends f w w1 E) | now apply IH].
Qed.

Lemma cstr_attr_name a : CLib.cstr (attr_name a) = attr_name a.
Proof. destruct a; reflexivity. Qed.

(** *** The end-to-end run *)

Lemma strncmp_refl s n : CLib.strncmp s s n = 0%Z.
Proof.
  revert s. induction n as [|n IH]; intros s; cbn [CLib.strncmp]; [reflexivity|].
  rewrite Ascii.eqb_refl. cbn [negb].
  destruct (Ascii.eqb (hd NUL s) NUL); [reflexivity | apply IH].
Qed.

Lemma scan_source_attr_name a n v :
  1 <= n -> scan_source (mkField (attr_name a) n v) = Some a.
Proof.
  intros Hn. destruct n as [|n]; [lia|].
  unfold scan_source. cbn [field_name field_length].
  destruct a; cbn [attr_name]; rewrite strncmp_refl; reflexivity.
Qed.

Lemma roomy_ctor n raw : roomy n raw -> roomy n (Ircon_share_ctor raw).
Proof. intros H a. specialize (H a). destruct a; exact H. Qed.

Lemma roomy_connected n fd sh :
  roomy n sh -> roomy n (set_socket_opened true (set_socket fd sh)).
Proof. intros H a. specialize (H a). destruct a; exact H. Qed.

Lemma cached_other a a' b sh :
  a <> a' -> cached a' (set_state a b sh) = cached a' sh.
Proof. intros H. destruct a, a'; try reflexivity; contradiction. Qed.

Lemma terminated_set_state a b v sh :
  terminated sh -> CLib.string_of_arr b = Some v -> terminated (set_state a b sh).
Proof.
  intros Ht Hb a'. pose proof (Ht a') as Ha'.
  assert (Hv : CLib.string_of_arr b = Some (CLib.cstr b))
    by (rewrite Hb; f_equal; now apply CFacts.string_of_arr_cstr).
  destruct a, a'; try exact Ha'; exact Hv.
Qed.

Lemma trace_sent_token fd name v w :
  trace (sent_token fd name v w) =
    trace w ++ [EvSend fd name; EvSend fd (lit ":"); EvSend fd v; EvSend fd (lit ",")].
Proof. unfold sent_token, log. cbn [trace]. rewrite <- !app_assoc. reflexivity. Qed.

Lemma write_then_scan_run L D os n1 n2 n3 n4 eof recs :
  8 <= L -> roomy L (heap_share os) -> (0 <= ret_socket os)%Z ->
  1 <= n1 -> 1 <= n2 -> 1 <= n3 -> 1 <= n4 ->
  exists w',
    run (write_then_scan L D os heat_row)
        (mkWorld (lit "host:9000") (attribute_columns n1 n2 n3 n4) None eof recs [])
      = inr ((0, 0, 0, 0)%Z, w') /\
    map val (field w') =
      [lit "heat"; IRCON_COMMAND_UNKNOWN; IRCON_COMMAND_UNKNOWN; IRCON_COMMAND_UNKNOWN] /\
    wire (trace w') = all_tokens /\
    connect_ports (trace w') = [9000%Z].
Proof.
  intros H8 Hroom Hfd H1 H2 H3 H4.
  set (w0 := mkWorld (lit "host:9000") (attribute_columns n1 n2 n3 n4) None eof recs []).
  set (fd := ret_socket os).
  set (sh1 := reset_share L (set_socket_opened true (set_socket fd (share_at_open os w0)))).
  assert (Hr0 : roomy L (share_at_open os w0)) by (apply roomy_ctor; exact Hroom).
  assert (Hr1 : roomy L sh1) by (apply reset_share_roomy, roomy_connected, Hr0).
  assert (Hc1 : forall a, cached a sh1 = Some IRCON_COMMAND_UNKNOWN)
    by (intros a; apply reset_share_cached; [exact H8 | apply roomy_connected, Hr0]).
  assert (Ht1 : terminated sh1)
    by (apply reset_share_terminated; [exact H8 | apply roomy_connected, Hr0]).
  assert (Hfd1 : socket sh1 = fd) by reflexivity.
  assert (Hopen : run (open L D os [] 0%Z 0%Z) w0
                  = inr (0%Z, opened_world L D os w0 (lit "host") 9000%Z)).
  { apply open_run with (seg := Some (lit "9000")); try reflexivity; try assumption.
    - repeat constructor; discriminate.
    - cbn; lia. }
  unfold write_then_scan. run_steps. rewrite Hopen. run_steps.
  set (w1 := set_field _ _).
  assert (Hs1 : share w1 = Some sh1) by reflexivity.
  assert (Hf1 : field w1 = [mkField IRCON_COMMAND_MODE n1 (lit "heat");
                            mkField IRCON_COMMAND_TEMPERATURE n2 [];
                            mkField IRCON_COMMAND_POWER n3 [];
                            mkField IRCON_COMMAND_ANGLE n4 []]) by reflexivity.
  assert (Htr1 : trace w1 = [EvSocket fd; EvConnect fd (lit "host") 9000%Z (ret_connect os)])
    by reflexivity.
  clearbody w1.
  (* the write *)
  destruct (write_update_field_store (mkField IRCON_COMMAND_MODE n1 (lit "heat")) Mode w1 sh1
              Hs1 eq_refl) as (b & _ & Hb & _ & Hrun1).
  { cbn; lia. }
  { pose proof (Hr1 Mode). cbn [val_str val length lit list_ascii_of_string] in *. lia. }
  set (sh2 := set_state Mode b sh1) in *.
  assert (Hc2 : forall a, a <> Mode -> cached a sh2 = Some IRCON_COMMAND_UNKNOWN).
  { intros a Ha. unfold sh2. rewrite cached_other by congruence. apply Hc1. }
  assert (Ht2 : terminated sh2) by (eapply terminated_set_state; eassumption).
  assert (Hfd2 : socket sh2 = fd) by reflexivity.
  set (w2 := sent_token _ _ _ _) in Hrun1.
  assert (Hs2 : share w2 = Some sh2) by reflexivity.
  assert (Hf2 : field w2 = field w1) by reflexivity.
  assert (Htr2 : trace w2 = trace w1 ++
            [EvSend fd (lit "mode"); EvSend fd (lit ":"); EvSend fd (lit "heat"); EvSend fd (lit ",")])
    by (unfold w2; rewrite trace_sent_token; reflexivity).
  clearbody w2.
  pose proof (write_update_field_keep (mkField IRCON_COMMAND_TEMPERATURE n2 []) Temperature
                w2 sh2 _ Hs2 eq_refl eq_refl (Hc2 Temperature ltac:(discriminate))) as Hrun2.
  set (w3 := sent_token _ _ _ _) in Hrun2.
  assert (Hs3 : share w3 = Some sh2) by exact Hs2.
  assert (Hf3 : field w3 = field w2) by reflexivity.
  assert (Htr3 : trace w3 = trace w2 ++
            [EvSend fd (lit "temperature"); EvSend fd (lit ":"); EvSend fd IRCON_COMMAND_UNKNOWN; EvSend fd (lit ",")])
    by (unfold w3; rewrite trace_sent_token; reflexivity).
  clearbody w3.
  pose proof (write_update_field_keep (mkField IRCON_COMMAND_POWER n3 []) Power
                w3 sh2 _ Hs3 eq_refl eq_refl (Hc2 Power ltac:(discriminate))) as Hrun3.
  set (w4 := sent_token _ _ _ _) in Hrun3.
  assert (Hs4 : share w4 = Some sh2) by exact Hs3.
  assert (Hf4 : field w4 = field w3) by reflexivity.
  assert (Htr4 : trace w4 = trace w3 ++
            [EvSend fd (lit "power"); EvSend fd (lit ":"); EvSend fd IRCON_COMMAND_UNKNOWN; EvSend fd (lit ",")])
    by (unfold w4; rewrite trace_sent_token; reflexivity).
  clearbody w4.
  pose proof (write_update_field_keep (mkField IRCON_COMMAND_ANGLE n4 []) Angle
                w4 sh2 _ Hs4 eq_refl eq_refl (Hc2 Angle ltac:(discriminate))) as Hrun4.
  set (w5 := sent_token _ _ _ _) in Hrun4.
  assert (Hs5 : share w5 = Some sh2) by exact Hs4.
  assert (Hf5 : field w5 = field w4) by reflexivity.
  assert (Htr5 : trace w5 = trace w4 ++
            [EvSend fd (lit "angle"); EvSend fd (lit ":"); EvSend fd IRCON_COMMAND_UNKNOWN; EvSend fd (lit ",")])
    by (unfold w5; rewrite trace_sent_token; reflexivity).
  clearbody w5.
  assert (Hall : run (for_each write_update_field (field w1)) w1 = inr (tt, w5)).
  { rewrite Hf1. cbn [for_each]. run_steps. rewrite Hrun1. cbv beta iota.
    run_steps. rewrite Hrun2. cbv beta iota. run_steps. rewrite Hrun3. cbv beta iota.
    run_steps. rewrite Hrun4. cbv beta iota. run_steps. reflexivity. }
  unfold write_row. rewrite (write_update_row_run w1 w5 sh2 Hall Hs5). cbv beta iota.
  (* the scan *)
  unfold rnd_init. run_steps.
  set (w6 := set_next_is_eof false _).
  assert (Hs6 : share w6 = Some sh2) by exact Hs5.
  assert (Hf6 : field w6 = field w5) by reflexivity.
  assert (Htr6 : trace w6 = trace w5 ++ [EvSend fd [LF]]) by reflexivity.
  assert (He6 : next_is_eof w6 = false) by reflexivity.
  clearbody w6.
  rewrite (rnd_next_row [] w6 sh2 Hs6 Ht2 He6). run_steps.
  exists (scanned_world sh2 w6). split; [reflexivity|].
  assert (Htr : trace (scanned_world sh2 w6) =
                [EvSocket fd; EvConnect fd (lit "host") 9000%Z (ret_connect os);
                 EvSend fd (lit "mode"); EvSend fd (lit ":"); EvSend fd (lit "heat");
                 EvSend fd (lit ",");
                 EvSend fd (lit "temperature"); EvSend fd (lit ":");
                 EvSend fd IRCON_COMMAND_UNKNOWN; EvSend fd (lit ",");
                 EvSend fd (lit "power"); EvSend fd (lit ":");
                 EvSend fd IRCON_COMMAND_UNKNOWN; EvSend fd (lit ",");
                 EvSend fd (lit "angle"); EvSend fd (lit ":");
                 EvSend fd IRCON_COMMAND_UNKNOWN; EvSend fd (lit ",");
                 EvSend fd [LF]]).
  { unfold scanned_world. cbn [trace].
    rewrite Htr6, Htr5, Htr4, Htr3, Htr2, Htr1. reflexivity. }
  split; [|split].
  - assert (Hheat : CLib.cstr b = lit "heat").
    { apply CFacts.string_of_arr_cstr in Hb. rewrite <- Hb. reflexivity. }
    assert (Hunk : forall a, a <> Mode -> CLib.cstr (state a sh2) = IRCON_COMMAND_UNKNOWN).
    { intros a Ha. pose proof (Hc2 a Ha) as E. apply cached_terminated in E. now symmetry. }
    unfold scanned_world. cbn [field]. rewrite Hf6, Hf5, Hf4, Hf3, Hf2, Hf1.
    cbn [map val store]. unfold scan_value.
    rewrite (scan_source_attr_name Mode n1 _ H1).
    rewrite (scan_source_attr_name Temperature n2 _ H2).
    rewrite (scan_source_attr_name Power n3 _ H3).
    rewrite (scan_source_attr_name Angle n4 _ H4).
    rewrite (Hunk Temperature), (Hunk Power), (Hunk Angle) by discriminate.
    change (state Mode sh2) with b. rewrite Hheat. reflexivity.
  - rewrite Htr. reflexivity.
  - rewrite Htr. reflexivity.
Qed.

Lemma roomy_raw_share n : roomy n (raw_share n).
Proof. intros a. destruct a; cbn [state raw_share state_mode state_temperature state_power state_angle]; now rewrite repeat_length. Qed.

(** *** Opening when a system call fails *)

Lemma open_socket_failure L D os nm mode tl w :
  socket_opened (share_at_open os w) = false -> (ret_socket os < 0)%Z ->
  run (open L D os nm mode tl) w =
    inr ((-1)%Z,
         mkWorld (table_name w) (field w)
                 (Some (set_socket (ret_socket os) (share_at_open os w)))
                 (next_is_eof w) (stats_records w)
                 (trace w ++ [EvSocket (ret_socket os)])).
Proof.
  intros Hclosed Hfd. unfold open.
  rewrite run_bind, (get_share_run _ w os eq_refl), Hclosed. cbn [negb]. run_steps.
  destruct (Z.ltb_spec (ret_socket os) 0); [|lia]. run_steps. reflexivity.
Qed.

Lemma open_connected L D os nm mode tl w sh :
  share w = Some sh -> socket_opened sh = true ->
  run (open L D os nm mode tl) w = inr (0%Z, w).
Proof.
  intros Hs Hopen. unfold open.
  rewrite run_bind, (get_share_run _ w os eq_refl).
  unfold share_at_open. rewrite Hs, Hopen. cbn [negb]. run_steps.
  now rewrite set_share_same.
Qed.

Lemma open_ports_run L D name host seg p :
  Forall (fun c => c <> NUL) name -> length name < 32 ->
  split_colon name = (host, seg) -> segment_port seg = Some p ->
  open_ports L D name = Some [CLib.uint16 (if (p =? 0)%Z then D else p)].
Proof.
  intros Hnul Hlen Hsplit Hport. unfold open_ports.
  rewrite (open_run L D (mkAnswers 3 0 (raw_share L)) [] 0%Z 0%Z
             (mkWorld name [] None false 0 []) host seg p); try assumption.
  - reflexivity.
  - reflexivity.
  - cbn; lia.
  - apply roomy_ctor, roomy_raw_share.
Qed.

(** ** The claims *)

(** C1 (as amended).  On a table whose four columns are the four attributes,
    in the order mode, temperature, power, angle and each at least one byte
    wide, opening "host:9000" (arrays of at least [L] cells, [L] at least 8, a
    socket that could be created), writing the row with mode "heat" and the
    other three columns empty, then [rnd_init] and one [rnd_next], return 0
    four times; the row read back is "heat", "unknown", "unknown", "unknown";
    the connection went to port 9000; and the bytes sent are one token for
    each of the four columns,
    [mode:heat,temperature:unknown,power:unknown,angle:unknown,] and a
    newline, not the token of the populated column alone. *)
Theorem write_then_scan_sends_every_column L D os n1 n2 n3 n4 eof recs :
  8 <= L -> roomy L (heap_share os) -> (0 <= ret_socket os)%Z ->
  1 <= n1 -> 1 <= n2 -> 1 <= n3 -> 1 <= n4 ->
  exists w',
    run (write_then_scan L D os heat_row)
        (mkWorld (lit "host:9000") (attribute_columns n1 n2 n3 n4) None eof recs [])
      = inr ((0, 0, 0, 0)%Z, w') /\
    map val (field w') =
      [lit "heat"; IRCON_COMMAND_UNKNOWN; IRCON_COMMAND_UNKNOWN; IRCON_COMMAND_UNKNOWN] /\
    wire (trace w') = all_tokens /\
    connect_ports (trace w') = [9000%Z].
Proof. exact (write_then_scan_run L D os n1 n2 n3 n4 eof recs). Qed.

(** The run with arrays of 16 cells, all four columns 16 bytes wide. *)
Lemma write_then_scan_sends_every_column_16 :
  exists w',
    run (write_then_scan 16 51000 (mkAnswers 3 0 (raw_share 16)) heat_row)
        (mkWorld (lit "host:9000") (attribute_columns 16 16 16 16) None false 0 [])
      = inr ((0, 0, 0, 0)%Z, w') /\
    map val (field w') =
      [lit "heat"; IRCON_COMMAND_UNKNOWN; IRCON_COMMAND_UNKNOWN; IRCON_COMMAND_UNKNOWN] /\
    wire (trace w') = all_tokens /\
    connect_ports (trace w') = [9000%Z].
Proof.
  apply (write_then_scan_sends_every_column 16 51000 (mkAnswers 3 0 (raw_share 16))
           16 16 16 16 false 0%Z);
    [lia | apply roomy_raw_share | cbn; lia | lia | lia | lia | lia].
Defined.

(** C1 as stated fails: whatever the two numbers of the header are, the bytes
    sent by the end-to-end run are never [mode:heat,] and a newline. *)
Lemma write_then_scan_wire_is_not_one_token :
  ~ exists L D, write_then_scan_wire L D = Some (lit "mode:heat," ++ [LF]).
Proof.
  intros (L & D & H). unfold write_then_scan_wire in H.
  destruct (le_lt_dec 8 L) as [H8|Hsmall].
  - destruct (write_then_scan_run L D (mkAnswers 3 0 (raw_share L)) 16 16 16 16 false 0%Z)
      as (w' & Hrun & _ & Hwire & _);
      [lia | apply roomy_raw_share | cbn; lia | lia | lia | lia | lia |].
    rewrite Hrun, Hwire in H. discriminate.
  - do 8 (destruct L as [|L]; [vm_compute in H; discriminate|]). lia.
Qed.

(** C2 (the code at the failing input).  When the share has no open
    connection, the socket is created and [connect] fails, [open] still
    returns 0 and marks the share connected; the failed [connect] is its last
    system call, and every later [open] returns 0 at once without a system
    call, so the connection is not attempted again. *)
Theorem open_ignores_connect_failure L D os nm mode tl w host seg p :
  socket_opened (share_at_open os w) = false ->
  (0 <= ret_socket os)%Z -> (ret_connect os < 0)%Z ->
  Forall (fun c => c <> NUL) (table_name w) -> length (table_name w) < 32 ->
  split_colon (table_name w) = (host, seg) -> segment_port seg = Some p ->
  roomy L (share_at_open os w) ->
  exists w' sh',
    run (open L D os nm mode tl) w = inr (0%Z, w') /\
    share w' = Some sh' /\ socket_opened sh' = true /\
    trace w' = trace w ++
               [EvSocket (ret_socket os);
                EvConnect (ret_socket os) host
                  (CLib.uint16 (if (p =? 0)%Z then D else p)) (ret_connect os)] /\
    forall os', run (open L D os' nm mode tl) w' = inr (0%Z, w').
Proof.
  intros Hclosed Hfd _ Hnul Hlen Hsplit Hport Hroom.
  exists (opened_world L D os w host p). eexists.
  split; [now apply open_run with (seg := seg)|].
  split; [reflexivity|]. split; [reflexivity|]. split; [reflexivity|].
  intros os'. now apply open_connected with (sh := reset_share L
    (set_socket_opened true (set_socket (ret_socket os) (share_at_open os w)))).
Qed.

(** The first [open] of "host:9000" with a [connect] that returns -1. *)
Lemma open_ignores_connect_failure_at_host_9000 :
  exists w' sh',
    run (open 16 51000 (mkAnswers 3 (-1) (raw_share 16)) [] 0%Z 0%Z)
        (mkWorld (lit "host:9000") [] None false 0 []) = inr (0%Z, w') /\
    share w' = Some sh' /\ socket_opened sh' = true /\
    trace w' = [] ++ [EvSocket 3; EvConnect 3 (lit "host") (CLib.uint16 9000) (-1)] /\
    forall os', run (open 16 51000 os' [] 0%Z 0%Z) w' = inr (0%Z, w').
Proof.
  apply (open_ignores_connect_failure 16 51000 (mkAnswers 3 (-1) (raw_share 16)) [] 0%Z 0%Z
           (mkWorld (lit "host:9000") [] None false 0 []) (lit "host") (Some (lit "9000"))
           9000%Z).
  - reflexivity.
  - cbn; lia.
  - cbn; lia.
  - repeat constructor; discriminate.
  - cbn; lia.
  - reflexivity.
  - reflexivity.
  - apply roomy_ctor, roomy_raw_share.
Defined.

(** C3 (the code at the failing input).  A column named "m" is not one of the
    four names, yet writing "cool" in it replaces the cached mode and sends
    [m:cool,] and a newline, because the write compares only the first
    [strlen (field_name)] characters; the scan of the same column does not take
    it for the mode.  A scan compares the first [field_length] characters: a
    column named "power" of declared length 0 is filled from the mode. *)
Theorem write_matches_any_prefix_of_a_name :
  exists w' sh',
    run (write_row []) prefix_world = inr (0%Z, w') /\
    share w' = Some sh' /\
    cached Mode sh' = Some (lit "cool") /\
    wire (trace w') = lit "m:cool," ++ [LF] /\
    scan_source prefix_column = None /\
    scan_source (mkField IRCON_COMMAND_POWER 0 []) = Some Mode.
Proof. eexists. eexists. split; [vm_compute; reflexivity|]. repeat split. Qed.

(** C4 (the code at the failing input).  Writing a non-empty value without
    terminator characters in a matched column never truncates it: when the
    value is shorter than the attribute array it is cached whole, and when it
    has as many characters as the array has cells, or more, the copy or its
    terminator is written past the end of the array. *)
Theorem store_never_truncates f a w sh :
  share w = Some sh -> write_target (field_name f) = Some a ->
  0 < length (val_str f) -> Forall (fun c => c <> NUL) (val_str f) ->
  (length (val_str f) < length (state a sh) ->
   exists w' sh', run (write_update_field f) w = inr (tt, w') /\
                  share w' = Some sh' /\ cached a sh' = Some (val_str f)) /\
  (length (state a sh) <= length (val_str f) ->
   run (write_update_field f) w = inl OutOfBounds).
Proof.
  intros Hs Ht Hpos Hclean. split.
  - intros Hfit.
    destruct (write_update_field_store f a w sh Hs Ht Hpos Hfit) as (b & _ & Hread & _ & Hrun).
    eexists. exists (set_state a b sh). split; [exact Hrun|]. split; [reflexivity|].
    unfold cached. replace (state a (set_state a b sh)) with b by (destruct a; reflexivity).
    rewrite Hread. f_equal. now apply CFacts.cstr_clean.
  - now apply write_update_field_overrun.
Qed.

(** Arrays of 16 cells: 15 characters are cached whole, 16 leave the array. *)
Lemma store_never_truncates_at_16 :
  (exists w' sh',
     run (write_update_field (long_column 15)) long_world = inr (tt, w') /\
     share w' = Some sh' /\ cached Mode sh' = Some (repeat "a"%char 15)) /\
  run (write_update_field (long_column 16)) long_world = inl OutOfBounds.
Proof.
  split.
  - apply (store_never_truncates (long_column 15) Mode long_world (fresh_share 3)
             eq_refl eq_refl).
    + cbn; lia.
    + repeat constructor; discriminate.
    + cbn; lia.
  - apply (store_never_truncates (long_column 16) Mode long_world (fresh_share 3)
             eq_refl eq_refl).
    + cbn; lia.
    + repeat constructor; discriminate.
    + cbn; lia.
Defined.

(** C5.  In a write or an update, a column named exactly as one of the four
    attributes whose value has length zero leaves the share, and so the cache,
    as the columns before it left it, and its four transmissions (the name, the
    colon, the cached value, the comma) still go out: the bytes of the whole
    command contain [name:value,] with the value cached before the column,
    right after the bytes of the columns before it. *)
Theorem empty_value_keeps_cache_and_is_sent
        buf old_data new_data w pre f post a w1 sh v w2 :
  field w = pre ++ f :: post ->
  field_name f = attr_name a ->
  length (val_str f) = 0 ->
  run (for_each write_update_field pre) w = inr (tt, w1) ->
  share w1 = Some sh ->
  cached a sh = Some v ->
  run (for_each write_update_field post) (sent_token (socket sh) (attr_name a) v w1)
    = inr (tt, w2) ->
  run (write_update_field f) w1 = inr (tt, sent_token (socket sh) (attr_name a) v w1) /\
  share (sent_token (socket sh) (attr_name a) v w1) = Some sh /\
  exists w3 rest,
    run (write_row buf) w = inr (0%Z, w3) /\
    run (update_row old_data new_data) w = inr (0%Z, w3) /\
    wire (trace w3) =
      wire (trace w1) ++ (attr_name a ++ lit ":" ++ v ++ lit ",") ++ rest.
Proof.
  intros Hf Hname Hlen Hpre Hs Hc Hpost.
  assert (Hv : val_str f = []) by (destruct (val_str f); [reflexivity | discriminate]).
  assert (Ht : write_target (field_name f) = Some a)
    by (rewrite Hname; apply write_target_attr_name).
  assert (Hstep : run (write_update_field f) w1
                  = inr (tt, sent_token (socket sh) (attr_name a) v w1)).
  { rewrite (write_update_field_keep f a w1 sh v Hs Ht Hv Hc), Hname, cstr_attr_name.
    reflexivity. }
  split; [exact Hstep|]. split; [exact Hs|].
  destruct (for_each_write_extends post _ w2 Hpost) as [[t Ht2] Hsh2].
  destruct (Hsh2 sh Hs) as (sh2 & Hs2 & _).
  assert (Hall : run (for_each write_update_field (field w)) w = inr (tt, w2)).
  { rewrite Hf, for_each_app, Hpre. cbn [for_each]. run_steps. rewrite Hstep.
    cbv beta iota. exact Hpost. }
  exists (log (EvSend (socket sh2) [LF]) w2), (wire t ++ [LF]).
  unfold write_row, update_row.
  rewrite (write_update_row_run w w2 sh2 Hall Hs2).
  repeat split. world. rewrite wire_app, Ht2, wire_app, wire_sent_token.
  cbn [wire]. rewrite <- !app_assoc. reflexivity.
Qed.

(** The empty temperature between a mode and a power column. *)
Lemma empty_value_keeps_cache_and_is_sent_demo :
  run (write_update_field demo_temperature) demo_after_mode
    = inr (tt, sent_token (socket demo_share) (attr_name Temperature)
                 IRCON_COMMAND_UNKNOWN demo_after_mode) /\
  share (sent_token (socket demo_share) (attr_name Temperature)
           IRCON_COMMAND_UNKNOWN demo_after_mode) = Some demo_share /\
  exists w3 rest,
    run (write_row []) demo_world = inr (0%Z, w3) /\
    run (update_row [] []) demo_world = inr (0%Z, w3) /\
    wire (trace w3) =
      wire (trace demo_after_mode) ++
      (attr_name Temperature ++ lit ":" ++ IRCON_COMMAND_UNKNOWN ++ lit ",") ++ rest.
Proof.
  apply (empty_value_keeps_cache_and_is_sent [] [] [] demo_world
           [demo_mode] demo_temperature [demo_power] Temperature
           demo_after_mode demo_share IRCON_COMMAND_UNKNOWN demo_after_power);
    vm_compute; reflexivity.
Defined.

(** C6.  Whatever the four arrays hold, provided each has room for the
    [IRCON_COMMAND_LENGTH] cells that are written and that number is at least
    8 (the sentinel and its terminator), [delete_row] returns 0, leaves all
    four cached attributes equal to "unknown", and makes one system call: the
    transmission of the eight bytes [mode:-,] and a newline. *)
Theorem delete_row_resets_and_sends L buf w sh :
  share w = Some sh -> 8 <= L -> roomy L sh ->
  exists w' sh',
    run (delete_row L buf) w = inr (0%Z, w') /\
    share w' = Some sh' /\
    (forall a, cached a sh' = Some IRCON_COMMAND_UNKNOWN) /\
    trace w' = trace w ++ [EvSend (socket sh) (lit "mode:-," ++ [LF])] /\
    length (lit "mode:-," ++ [LF]) = 8.
Proof.
  intros Hs H8 Hr.
  exists (log (EvSend (socket sh) (lit "mode:-," ++ [LF])) (set_share (reset_share L sh) w)),
         (reset_share L sh).
  split; [|repeat split].
  - unfold delete_row. rewrite (reset_all_run L _ _ w sh Hs Hr). run_steps. reflexivity.
  - intros a. now apply reset_share_cached.
Qed.

(** A delete after that write, with [IRCON_COMMAND_LENGTH] 16. *)
Lemma delete_row_resets_and_sends_demo :
  exists w' sh',
    run (delete_row 16 []) demo_after_power = inr (0%Z, w') /\
    share w' = Some sh' /\
    (forall a, cached a sh' = Some IRCON_COMMAND_UNKNOWN) /\
    trace w' = trace demo_after_power ++ [EvSend (socket demo_share) (lit "mode:-," ++ [LF])] /\
    length (lit "mode:-," ++ [LF]) = 8.
Proof.
  apply (delete_row_resets_and_sends 16 [] demo_after_power demo_share).
  - reflexivity.
  - lia.
  - intros a; destruct a; cbn; lia.
Defined.

(** Any number of scans in a row, with the columns written through [store]. *)
Lemma scan_cycles_run n scan buf w sh :
  share w = Some sh -> terminated sh ->
  exists w',
    run (scan_cycles n scan buf) w = inr (repeat (0%Z, HA_ERR_END_OF_FILE) n, w') /\
    share w' = Some sh /\ trace w' = trace w /\ table_name w' = table_name w /\
    (0 < n ->
     next_is_eof w' = true /\
     field w' = map (fun f => store f (scan_value sh f)) (field w)).
Proof.
  intros Hs Ht. revert w Hs. induction n as [|n IH]; intros w Hs.
  - exists w. cbn [scan_cycles repeat]. run_steps. repeat split; try assumption; lia.
  - cbn [scan_cycles repeat]. run_steps. rewrite (scan_cycle_run scan buf w sh Hs Ht).
    cbv beta iota.
    destruct (IH (scanned_world sh w) Hs) as (w' & Hrun & Hs' & Htr & Hnm & Hrow).
    exists w'. run_steps. rewrite Hrun. run_steps.
    repeat split; try assumption.
    + destruct n as [|n]; [|apply Hrow; lia].
      cbn [scan_cycles] in Hrun. rewrite run_ret in Hrun. now injection Hrun as <-.
    + destruct n as [|n].
      * cbn [scan_cycles] in Hrun. rewrite run_ret in Hrun. now injection Hrun as <-.
      * destruct Hrow as [_ Hf]; [lia|]. rewrite Hf. apply scan_twice.
Qed.

(** C7.  From any state in which the share is set and its arrays hold
    terminated strings, and for every number [n] of scans in a row, each scan
    ([rnd_init], [rnd_next], [rnd_next]) returns 0 and then HA_ERR_END_OF_FILE:
    one row per [rnd_init], then the end.  The share and the system calls are
    left as they were, and after the last scan the row is populated: the value
    of every column is what the scan reads from the cache for it (the cached
    string of the attribute the column is matched with, "unknown" for a column
    matched with none), under the name and the declared length the column
    had. *)
Theorem scan_yields_one_row_per_cycle n scan buf w sh :
  share w = Some sh -> terminated sh ->
  exists w',
    run (scan_cycles n scan buf) w = inr (repeat (0%Z, HA_ERR_END_OF_FILE) n, w') /\
    share w' = Some sh /\ trace w' = trace w /\ table_name w' = table_name w /\
    (0 < n ->
     next_is_eof w' = true /\
     map val (field w') = map (scan_value sh) (field w) /\
     map field_name (field w') = map field_name (field w) /\
     map field_length (field w') = map field_length (field w)).
Proof.
  intros Hs Ht.
  destruct (scan_cycles_run n scan buf w sh Hs Ht) as (w' & Hrun & Hs' & Htr & Hnm & Hrow).
  exists w'. repeat split; try assumption.
  - now apply Hrow.
  - destruct Hrow as [_ ->]; [assumption|]. rewrite map_map. now apply map_ext.
  - destruct Hrow as [_ ->]; [assumption|]. rewrite map_map. now apply map_ext.
  - destruct Hrow as [_ ->]; [assumption|]. rewrite map_map. now apply map_ext.
Qed.

(** Three scans in a row on a freshly opened share: the three columns of the
    table hold "unknown". *)
Lemma scan_yields_one_row_per_cycle_thrice :
  exists w',
    run (scan_cycles 3 true []) demo_world
      = inr (repeat (0%Z, HA_ERR_END_OF_FILE) 3, w') /\
    share w' = Some (fresh_share 3) /\ trace w' = trace demo_world /\
    table_name w' = table_name demo_world /\
    (0 < 3 ->
     next_is_eof w' = true /\
     map val (field w') = [lit "unknown"; lit "unknown"; lit "unknown"] /\
     map field_name (field w') = map field_name (field demo_world) /\
     map field_length (field w') = map field_length (field demo_world)).
Proof.
  apply (scan_yields_one_row_per_cycle 3 true [] demo_world (fresh_share 3)).
  - reflexivity.
  - intros a; destruct a; reflexivity.
Defined.

Lemma isdigit_cases c :
  CLib.isdigit c = true ->
  CLib.isspace c = false /\ Ascii.eqb c "-" = false /\ Ascii.eqb c "+" = false /\ c <> NUL.
Proof.
  destruct c as [[] [] [] [] [] [] [] []]; cbn; intros H;
    try discriminate H; repeat split; discriminate.
Qed.

Lemma atoi_digits_decimal acc ds :
  Forall (fun c => CLib.isdigit c = true) ds ->
  CLib.atoi_digits acc (ds ++ [NUL]) =
    Some (fold_left (fun a c => (10 * a + (Z.of_nat (nat_of_ascii c) - 48))%Z) ds acc).
Proof.
  intros H. revert acc. induction H as [|c r Hc _ IH]; intros acc; [reflexivity|].
  cbn [app CLib.atoi_digits fold_left]. rewrite Hc. apply IH.
Qed.

(** [atoi] of a terminated number within the range of [int] is its value. *)
Lemma atoi_signed_number neg ds :
  Forall (fun c => CLib.isdigit c = true) ds ->
  (CLib.INT_MIN <= signed_value neg ds <= CLib.INT_MAX)%Z ->
  CLib.atoi (signed_number neg ds ++ [NUL]) = Some (signed_value neg ds).
Proof.
  intros Hd Hr.
  assert (Hs : CLib.atoi_spaces (signed_number neg ds ++ [NUL]) = Some (signed_value neg ds)).
  { destruct neg; cbn [signed_number signed_value].
    - cbn [app CLib.atoi_spaces CLib.atoi_signed]. cbn.
      now rewrite atoi_digits_decimal.
    - destruct Hd as [|c r Hc Hd]; [reflexivity|].
      destruct (isdigit_cases c Hc) as (Hsp & Hm & Hp & _).
      cbn [app CLib.atoi_spaces CLib.atoi_signed]. rewrite Hsp, Hm, Hp.
      change (c :: r ++ [NUL]) with ((c :: r) ++ [NUL]).
      rewrite atoi_digits_decimal by now constructor. reflexivity. }
  unfold CLib.atoi. rewrite Hs.
  destruct (Z.leb_spec CLib.INT_MIN (signed_value neg ds)); [|lia].
  destruct (Z.leb_spec (signed_value neg ds) CLib.INT_MAX); [|lia].
  reflexivity.
Qed.

Lemma uint16_eq_iff v d :
  CLib.uint16 v = CLib.uint16 d <-> ((v - d) mod 65536 = 0)%Z.
Proof.
  unfold CLib.uint16. split; intros H.
  - rewrite Zminus_mod, H, Z.sub_diag. reflexivity.
  - replace v with (d + (v - d))%Z by lia.
    rewrite Zplus_mod, H, Z.add_0_r, Zmod_mod. reflexivity.
Qed.

(** C8 (the code at the failing input).  The port segment is a number that is
    not a port: a run of digits, with or without a minus sign before it, whose
    value fits an [int] and is negative or above 65535.  For a table name
    shorter than 32 bytes made of a host, a colon and such a number, [open] on a
    share without an open connection (socket created, arrays with room for the
    reset) returns 0 and connects to the host on that value reduced to 16 bits:
    the default port is substituted only under the test [port == 0], so the
    port of the connection is the default port only when the value and the
    default port differ by a multiple of 65536. *)
Theorem open_keeps_an_unusable_port L D os nm mode tl w host neg ds :
  socket_opened (share_at_open os w) = false ->
  (0 <= ret_socket os)%Z ->
  table_name w = host ++ ":"%char :: signed_number neg ds ->
  Forall (fun c => c <> NUL /\ c <> ":"%char) host ->
  Forall (fun c => CLib.isdigit c = true) ds ->
  length (table_name w) < 32 ->
  (CLib.INT_MIN <= signed_value neg ds <= CLib.INT_MAX)%Z ->
  (signed_value neg ds < 0 \/ 65535 < signed_value neg ds)%Z ->
  roomy L (share_at_open os w) ->
  exists w',
    run (open L D os nm mode tl) w = inr (0%Z, w') /\
    trace w' = trace w ++
               [EvSocket (ret_socket os);
                EvConnect (ret_socket os) host
                  (CLib.uint16 (signed_value neg ds)) (ret_connect os)] /\
    (CLib.uint16 (signed_value neg ds) = CLib.uint16 D <->
     ((signed_value neg ds - D) mod 65536 = 0)%Z).
Proof.
  intros Hclosed Hfd Hname Hhost Hds Hlen Hint Hbad Hroom.
  exists (opened_world L D os w host (signed_value neg ds)).
  split; [|split; [|apply uint16_eq_iff]].
  - apply open_run with (seg := Some (signed_number neg ds)); try assumption.
    + rewrite Hname. apply Forall_app. split.
      * eapply Forall_impl; [|exact Hhost]. now intros c [? _].
      * constructor; [discriminate|].
        assert (Hn : Forall (fun c => c <> NUL) ds).
        { eapply Forall_impl; [|exact Hds]. intros c Hc. now apply isdigit_cases. }
        destruct neg; cbn [signed_number]; [constructor; [discriminate|]|]; exact Hn.
    + rewrite Hname. clear Hname Hlen. induction Hhost as [|c r [_ Hc] _ IH]; cbn.
      * reflexivity.
      * destruct (Ascii.eqb_spec c ":"); [contradiction|]. now rewrite IH.
    + cbn [segment_port]. now apply atoi_signed_number.
  - unfold opened_world. world.
    destruct (Z.eqb_spec (signed_value neg ds) 0); [lia|]. reflexivity.
Qed.

(** The identifier "host:-5": the connection goes to port 65531, and 51000 is
    not substituted. *)
Lemma open_keeps_an_unusable_port_negative :
  exists w',
    run (open 16 51000 (mkAnswers 3 0 (raw_share 16)) [] 0%Z 0%Z)
        (mkWorld (lit "host:-5") [] None false 0 []) = inr (0%Z, w') /\
    trace w' = [] ++ [EvSocket 3; EvConnect 3 (lit "host") 65531 0] /\
    (65531 = CLib.uint16 51000 <-> ((-5 - 51000) mod 65536 = 0))%Z.
Proof.
  apply (open_keeps_an_unusable_port 16 51000 (mkAnswers 3 0 (raw_share 16)) [] 0%Z 0%Z
           (mkWorld (lit "host:-5") [] None false 0 []) (lit "host") true (lit "5")).
  - reflexivity.
  - cbn; lia.
  - reflexivity.
  - repeat constructor; discriminate.
  - repeat constructor.
  - cbn; lia.
  - vm_compute. split; discriminate.
  - left. vm_compute. reflexivity.
  - apply roomy_ctor, roomy_raw_share.
Defined.

(** A number above 65535 is kept too and wraps: "host:70000" connects to port
    4464, and "host:116536" to port 51000. *)
Lemma open_wraps_a_large_port :
  open_ports 16 51000 (lit "host:70000") = Some [4464%Z] /\
  open_ports 16 51000 (lit "host:116536") = Some [51000%Z].
Proof.
  split.
  - rewrite (open_ports_run 16 51000 (lit "host:70000") (lit "host")
               (Some (lit "70000")) 70000%Z);
      [reflexivity|repeat constructor; discriminate|cbn; lia|reflexivity|reflexivity].
  - rewrite (open_ports_run 16 51000 (lit "host:116536") (lit "host")
               (Some (lit "116536")) 116536%Z);
      [reflexivity|repeat constructor; discriminate|cbn; lia|reflexivity|reflexivity].
Qed.

(** Whatever the two numbers of the header are, no default port is the port of
    both "host:-5" and "host:-6": a negative port segment is not replaced. *)
Lemma negative_port_is_not_replaced :
  ~ exists L D, open_ports L D (lit "host:-5") = Some [CLib.uint16 D] /\
                open_ports L D (lit "host:-6") = Some [CLib.uint16 D].
Proof.
  intros (L & D & H5 & H6).
  rewrite (open_ports_run L D (lit "host:-5") (lit "host") (Some (lit "-5")) (-5)%Z) in H5;
    [|repeat constructor; discriminate|cbn; lia|reflexivity|reflexivity].
  rewrite (open_ports_run L D (lit "host:-6") (lit "host") (Some (lit "-6")) (-6)%Z) in H6;
    [|repeat constructor; discriminate|cbn; lia|reflexivity|reflexivity].
  cbn in H5, H6. congruence.
Qed.

(** The sibling path: with the port segment "0", or without one, the test
    [port == 0] holds and the default port is used. *)
Lemma zero_port_is_replaced L D :
  open_ports L D (lit "host:0") = Some [CLib.uint16 D] /\
  open_ports L D (lit "host") = Some [CLib.uint16 D].
Proof.
  split.
  - now rewrite (open_ports_run L D (lit "host:0") (lit "host") (Some (lit "0")) 0%Z);
      [|repeat constructor; discriminate|cbn; lia|reflexivity|reflexivity].
  - now rewrite (open_ports_run L D (lit "host") (lit "host") None 0%Z);
      [|repeat constructor; discriminate|cbn; lia|reflexivity|reflexivity].
Qed.

(** C9.  In every state, [index_read_map], [index_next], [index_prev],
    [index_first], [index_last], [rnd_pos], [truncate] and [delete_all_rows]
    return HA_ERR_WRONG_COMMAND and leave the whole state as it was: the share
    with its cache and connection, the scan flag, the columns and the list of
    system calls. *)
Theorem unsupported_calls_change_nothing w buf key pos keypart_map find_flag :
  run (index_read_map buf key keypart_map find_flag) w = inr (HA_ERR_WRONG_COMMAND, w) /\
  run (index_next buf) w = inr (HA_ERR_WRONG_COMMAND, w) /\
  run (index_prev buf) w = inr (HA_ERR_WRONG_COMMAND, w) /\
  run (index_first buf) w = inr (HA_ERR_WRONG_COMMAND, w) /\
  run (index_last buf) w = inr (HA_ERR_WRONG_COMMAND, w) /\
  run (rnd_pos buf pos) w = inr (HA_ERR_WRONG_COMMAND, w) /\
  run truncate w = inr (HA_ERR_WRONG_COMMAND, w) /\
  run delete_all_rows w = inr (HA_ERR_WRONG_COMMAND, w).
Proof. repeat split. Qed.

(** C10.  In every state and for every row image passed in, [write_row] and
    [update_row] have the same outcome: the same result code, the same share
    and cache, the same system calls, or the same undefined behaviour. *)
Theorem write_row_update_row_agree w buf old_data new_data :
  run (write_row buf) w = run (update_row old_data new_data) w.
Proof. reflexivity. Qed.

(** ** Further properties *)

(** ** How column names are matched *)

Lemma nat_of_ascii_inj c d : nat_of_ascii c = nat_of_ascii d -> c = d.
Proof.
  intros H. rewrite <- (ascii_nat_embedding c), <- (ascii_nat_embedding d). now rewrite H.
Qed.

Lemma char_diff_zero c d :
  ((Z.of_nat (nat_of_ascii c) - Z.of_nat (nat_of_ascii d) =? 0)%Z = true) <-> c = d.
Proof.
  rewrite Z.eqb_eq. split.
  - intros H. apply nat_of_ascii_inj. lia.
  - intros ->. lia.
Qed.

Lemma char_diff_nonzero c d :
  c <> d -> (Z.of_nat (nat_of_ascii c) - Z.of_nat (nat_of_ascii d) =? 0)%Z = false.
Proof.
  intros H. destruct (_ =? 0)%Z eqn:E; [|reflexivity].
  apply char_diff_zero in E. contradiction.
Qed.

(** [strncmp (s, t, strlen (s)) == 0]: the string [s] is a prefix of [t]. *)
Lemma strncmp_strlen_prefix s t :
  (CLib.strncmp s t (CLib.strlen s) =? 0)%Z = true <->
  exists r, CLib.cstr t = CLib.cstr s ++ r.
Proof.
  revert t. induction s as [|c s' IH]; intros t.
  - split; [intros _; now exists (CLib.cstr t) | reflexivity].
  - unfold CLib.strlen. cbn [CLib.cstr].
    destruct (Ascii.eqb_spec c NUL) as [->|Hc].
    + split; [intros _; now exists (CLib.cstr t) | reflexivity].
    + cbn [length CLib.strncmp hd tl].
      destruct t as [|d t']; cbn [hd tl CLib.cstr].
      * destruct (Ascii.eqb_spec c NUL); [contradiction|]. cbn [negb].
        rewrite (char_diff_nonzero c NUL Hc).
        split; [discriminate | intros [r Hr]; discriminate].
      * destruct (Ascii.eqb_spec c d) as [<-|Hcd]; cbn [negb].
        -- destruct (Ascii.eqb_spec c NUL); [contradiction|].
           fold (CLib.strlen s'). rewrite IH. split.
           ++ intros [r Hr]. exists r. cbn [app]. now rewrite Hr.
           ++ intros [r Hr]. exists r. cbn [app] in Hr. now injection Hr.
        -- rewrite (char_diff_nonzero c d Hcd). split; [discriminate|].
           intros [r Hr]. destruct (Ascii.eqb d NUL); [discriminate|].
           cbn [app] in Hr. injection Hr as Hd _. congruence.
Qed.

(** [strncmp (s, t, n) == 0] with [n] past the end of [t]: the strings are equal. *)
Lemma strncmp_wide s t n :
  length (CLib.cstr t) < n ->
  ((CLib.strncmp s t n =? 0)%Z = true <-> CLib.cstr s = CLib.cstr t).
Proof.
  revert s t. induction n as [|n IH]; intros s t Hn; [lia|].
  cbn [CLib.strncmp].
  destruct s as [|c s'], t as [|d t']; cbn [hd tl CLib.cstr] in *.
  - cbn. tauto.
  - destruct (Ascii.eqb_spec NUL d) as [<-|Hd]; cbn [negb].
    + cbn. tauto.
    + rewrite (char_diff_nonzero NUL d Hd).
      destruct (Ascii.eqb_spec d NUL); [congruence|]. split; discriminate.
  - destruct (Ascii.eqb_spec c NUL) as [->|Hc]; cbn [negb].
    + cbn. tauto.
    + rewrite (char_diff_nonzero c NUL Hc). split; discriminate.
  - destruct (Ascii.eqb_spec c d) as [<-|Hcd]; cbn [negb].
    + destruct (Ascii.eqb_spec c NUL) as [->|Hc]; [cbn; tauto|].
      cbn [length] in Hn. rewrite IH by lia. split; [now intros -> | now intros [= ->]].
    + rewrite (char_diff_nonzero c d Hcd).
      split; [discriminate|].
      destruct (Ascii.eqb_spec c NUL), (Ascii.eqb_spec d NUL); try discriminate; try congruence.
Qed.

Lemma cstr_nil_or_cons s : CLib.cstr s = [] \/ exists c r, CLib.cstr s = c :: r /\ c <> NUL.
Proof.
  destruct s as [|c r]; [now left|]. cbn [CLib.cstr].
  destruct (Ascii.eqb_spec c NUL); [now left | right; eauto].
Qed.

(** X1.  [write_update_row] takes a column for an attribute exactly when the
    column name (up to its terminator) is a prefix of the attribute name; the
    empty name is taken for the mode, the first attribute compared.  The four
    names start with different letters, so a non-empty name matches at most
    one attribute. *)
Theorem write_target_is_prefix_match name a :
  write_target name = Some a <->
  (exists r, attr_name a = CLib.cstr name ++ r) /\ (CLib.cstr name = [] -> a = Mode).
Proof.
  unfold write_target.
  pose proof (strncmp_strlen_prefix name IRCON_COMMAND_MODE) as Hm.
  pose proof (strncmp_strlen_prefix name IRCON_COMMAND_TEMPERATURE) as Ht.
  pose proof (strncmp_strlen_prefix name IRCON_COMMAND_POWER) as Hp.
  pose proof (strncmp_strlen_prefix name IRCON_COMMAND_ANGLE) as Ha.
  change (CLib.cstr IRCON_COMMAND_MODE) with (lit "mode") in Hm.
  change (CLib.cstr IRCON_COMMAND_TEMPERATURE) with (lit "temperature") in Ht.
  change (CLib.cstr IRCON_COMMAND_POWER) with (lit "power") in Hp.
  change (CLib.cstr IRCON_COMMAND_ANGLE) with (lit "angle") in Ha.
  destruct (cstr_nil_or_cons name) as [E|(c & n' & E & Hc)]; rewrite E in *.
  - assert (Hm' : (CLib.strncmp name IRCON_COMMAND_MODE (CLib.strlen name) =? 0)%Z = true)
      by (apply Hm; now exists (lit "mode")).
    rewrite Hm'. split.
    + intros [= <-]. split; [now exists (lit "mode") | reflexivity].
    + intros [_ H]. now rewrite H.
  - destruct (CLib.strncmp name IRCON_COMMAND_MODE (CLib.strlen name) =? 0)%Z eqn:Em.
    { destruct (proj1 Hm eq_refl) as [r Er]. injection Er as <- Er. split.
      - intros [= <-]. split; [exists r; cbn; now rewrite Er | discriminate].
      - intros [[r' Er'] _]. destruct a; try reflexivity; discriminate. }
    destruct (CLib.strncmp name IRCON_COMMAND_TEMPERATURE (CLib.strlen name) =? 0)%Z eqn:Et.
    { destruct (proj1 Ht eq_refl) as [r Er]. injection Er as <- Er. split.
      - intros [= <-]. split; [exists r; cbn; now rewrite Er | discriminate].
      - intros [[r' Er'] _]. destruct a; try reflexivity; discriminate. }
    destruct (CLib.strncmp name IRCON_COMMAND_POWER (CLib.strlen name) =? 0)%Z eqn:Ep.
    { destruct (proj1 Hp eq_refl) as [r Er]. injection Er as <- Er. split.
      - intros [= <-]. split; [exists r; cbn; now rewrite Er | discriminate].
      - intros [[r' Er'] _]. destruct a; try reflexivity; discriminate. }
    destruct (CLib.strncmp name IRCON_COMMAND_ANGLE (CLib.strlen name) =? 0)%Z eqn:Ea.
    { destruct (proj1 Ha eq_refl) as [r Er]. injection Er as <- Er. split.
      - intros [= <-]. split; [exists r; cbn; now rewrite Er | discriminate].
      - intros [[r' Er'] _]. destruct a; try reflexivity; discriminate. }
    split; [discriminate|]. intros [[r Er] _].
    destruct a; cbn [attr_name] in Er.
    + assert (false = true) by (apply Hm; now exists r). discriminate.
    + assert (false = true) by (apply Ht; now exists r). discriminate.
    + assert (false = true) by (apply Hp; now exists r). discriminate.
    + assert (false = true) by (apply Ha; now exists r). discriminate.
Qed.

(** X2.  For a column whose declared length is 12 bytes or more (longer than
    every attribute name), [rnd_next] reads the column from an attribute
    exactly when the column name is the attribute name. *)
Theorem scan_source_is_exact_when_wide f a :
  12 <= field_length f ->
  (scan_source f = Some a <-> CLib.cstr (field_name f) = attr_name a).
Proof.
  intros Hw. unfold scan_source. cbv zeta.
  pose proof (strncmp_wide (field_name f) IRCON_COMMAND_MODE (field_length f)) as Hm.
  pose proof (strncmp_wide (field_name f) IRCON_COMMAND_TEMPERATURE (field_length f)) as Ht.
  pose proof (strncmp_wide (field_name f) IRCON_COMMAND_POWER (field_length f)) as Hp.
  pose proof (strncmp_wide (field_name f) IRCON_COMMAND_ANGLE (field_length f)) as Ha.
  change (CLib.cstr IRCON_COMMAND_MODE) with (lit "mode") in Hm.
  change (CLib.cstr IRCON_COMMAND_TEMPERATURE) with (lit "temperature") in Ht.
  change (CLib.cstr IRCON_COMMAND_POWER) with (lit "power") in Hp.
  change (CLib.cstr IRCON_COMMAND_ANGLE) with (lit "angle") in Ha.
  specialize (Hm ltac:(cbn; lia)). specialize (Ht ltac:(cbn; lia)).
  specialize (Hp ltac:(cbn; lia)). specialize (Ha ltac:(cbn; lia)).
  destruct (CLib.strncmp (field_name f) IRCON_COMMAND_MODE (field_length f) =? 0)%Z.
  { rewrite (proj1 Hm eq_refl). split; [now intros [= <-]|].
    destruct a; intros H; try reflexivity; discriminate. }
  destruct (CLib.strncmp (field_name f) IRCON_COMMAND_TEMPERATURE (field_length f) =? 0)%Z.
  { rewrite (proj1 Ht eq_refl). split; [now intros [= <-]|].
    destruct a; intros H; try reflexivity; discriminate. }
  destruct (CLib.strncmp (field_name f) IRCON_COMMAND_POWER (field_length f) =? 0)%Z.
  { rewrite (proj1 Hp eq_refl). split; [now intros [= <-]|].
    destruct a; intros H; try reflexivity; discriminate. }
  destruct (CLib.strncmp (field_name f) IRCON_COMMAND_ANGLE (field_length f) =? 0)%Z.
  { rewrite (proj1 Ha eq_refl). split; [now intros [= <-]|].
    destruct a; intros H; try reflexivity; discriminate. }
  split; [discriminate|]. intros H.
  destruct a; cbn [attr_name] in H.
  - assert (false = true) by now apply Hm. discriminate.
  - assert (false = true) by now apply Ht. discriminate.
  - assert (false = true) by now apply Hp. discriminate.
  - assert (false = true) by now apply Ha. discriminate.
Qed.

Lemma scan_source_is_exact_when_wide_modes :
  scan_source (mkField (lit "mode") 16 []) = Some Mode <->
  CLib.cstr (field_name (mkField (lit "mode") 16 [])) = attr_name Mode.
Proof.
  apply (scan_source_is_exact_when_wide (mkField (lit "mode") 16 []) Mode). cbn; lia.
Defined.


(** ** The command a row encodes to *)

Lemma cache_get_of a s : cache_get a (cache_of s) = CLib.cstr (state a s).
Proof. destruct a; reflexivity. Qed.

Lemma cache_of_set_state a b s :
  cache_of (set_state a b s) = cache_set a (CLib.cstr b) (cache_of s).
Proof. destruct a; reflexivity. Qed.

Lemma cache_set_same a s : cache_set a (cache_get a (cache_of s)) (cache_of s) = cache_of s.
Proof. destruct a; reflexivity. Qed.

Lemma state_set_state_same a b s : state a (set_state a b s) = b.
Proof. destruct a; reflexivity. Qed.

Lemma state_set_state_other a a' b s : a <> a' -> state a' (set_state a b s) = state a' s.
Proof. intros H. destruct a, a'; try reflexivity; contradiction. Qed.

Lemma length_state_set_state a a' b s :
  length b = length (state a s) ->
  length (state a' (set_state a b s)) = length (state a' s).
Proof. intros H. destruct a, a'; try reflexivity; exact H. Qed.

Lemma same_table_refl w : same_table w w.
Proof. repeat split. Qed.

Lemma same_table_trans w1 w2 w3 : same_table w1 w2 -> same_table w2 w3 -> same_table w1 w3.
Proof. unfold same_table. intros (?&?&?&?) (?&?&?&?). repeat split; congruence. Qed.

Lemma same_table_sent_token fd name v s w :
  same_table w (sent_token fd name v (set_share s w)).
Proof. repeat split. Qed.

Lemma trace_sent_token_sends fd name v s w :
  trace (sent_token fd name v (set_share s w)) =
    trace w ++ map (EvSend fd) [name; lit ":"; v; lit ","].
Proof. rewrite trace_sent_token. reflexivity. Qed.

Lemma wire_sends fd ps : wire (map (EvSend fd) ps) = concat ps.
Proof. induction ps as [|p r IH]; [reflexivity|]. cbn [map wire concat]. now rewrite IH. Qed.

Lemma row_tokens_store c f r a :
  write_target (field_name f) = Some a -> 0 < length (val_str f) ->
  row_tokens c (f :: r) =
    (CLib.cstr (field_name f) :: lit ":" :: CLib.cstr (val_str f) :: lit "," ::
       fst (row_tokens (cache_set a (CLib.cstr (val_str f)) c) r),
     snd (row_tokens (cache_set a (CLib.cstr (val_str f)) c) r)).
Proof.
  intros Ht Hpos. cbn [row_tokens]. rewrite Ht.
  destruct (Nat.ltb_spec 0 (length (val_str f))); [reflexivity | lia].
Qed.

Lemma row_tokens_keep c f r a :
  write_target (field_name f) = Some a -> val_str f = [] ->
  row_tokens c (f :: r) =
    (CLib.cstr (field_name f) :: lit ":" :: cache_get a c :: lit "," ::
       fst (row_tokens (cache_set a (cache_get a c) c) r),
     snd (row_tokens (cache_set a (cache_get a c) c) r)).
Proof. intros Ht Hv. cbn [row_tokens]. rewrite Ht, Hv. reflexivity. Qed.

Lemma row_tokens_skip c f r :
  write_target (field_name f) = None -> row_tokens c (f :: r) = row_tokens c r.
Proof. intros Ht. cbn [row_tokens]. now rewrite Ht. Qed.

(** The loop of [write_update_row] over columns that fit. *)
Lemma for_each_write_run fs :
  forall w sh,
    share w = Some sh -> terminated sh -> fits fs sh ->
    exists w' sh',
      run (for_each write_update_field fs) w = inr (tt, w') /\
      share w' = Some sh' /\ written fs sh sh' /\ same_table w w' /\
      trace w' = trace w ++ map (EvSend (socket sh)) (fst (row_tokens (cache_of sh) fs)).
Proof.
  induction fs as [|f r IH]; intros w sh Hs Ht Hfit.
  - exists w, sh. cbn [for_each row_tokens fst snd map]. run_steps.
    rewrite app_nil_r. repeat split; try assumption; try reflexivity.
  - assert (Hfit_r : forall sh1, (forall a, length (state a sh1) = length (state a sh)) ->
                                 fits r sh1).
    { intros sh1 Hlen g a Hg Hta. rewrite Hlen. apply Hfit; [now right | assumption]. }
    cbn [for_each]. run_steps. unfold written.
    destruct (write_target (field_name f)) as [a|] eqn:Hta.
    + destruct (Nat.ltb_spec 0 (length (val_str f))) as [Hpos|Hzero].
      * (* a value: stored, then sent *)
        assert (Hf : length (val_str f) < length (state a sh)) by (apply Hfit; [now left|assumption]).
        destruct (write_update_field_store f a w sh Hs Hta Hpos Hf)
          as (b & _ & Hb & Hlen & Hrun).
        rewrite Hrun, (row_tokens_store _ f r a Hta Hpos). cbv beta iota. cbn [fst snd].
        assert (Hcb : CLib.cstr b = CLib.cstr (val_str f))
          by (symmetry; now apply CFacts.string_of_arr_cstr).
        assert (Ht1 : terminated (set_state a b sh)) by (eapply terminated_set_state; eassumption).
        assert (Hl1 : forall a', length (state a' (set_state a b sh)) = length (state a' sh))
          by (intros a'; now apply length_state_set_state).
        destruct (IH (sent_token (socket sh) (CLib.cstr (field_name f)) (CLib.cstr (val_str f))
                        (set_share (set_state a b sh) w))
                     (set_state a b sh) eq_refl Ht1 (Hfit_r _ Hl1))
          as (w' & sh' & Hrun' & Hs' & Hw' & Hsame & Htr).
        destruct Hw' as (Ht' & Hfd' & Hop' & Hl' & Hc' & Hfr').
        exists w', sh'. split; [exact Hrun'|]. split; [exact Hs'|].
        assert (Hfd1 : socket (set_state a b sh) = socket sh) by (destruct a; reflexivity).
        assert (Hop1 : socket_opened (set_state a b sh) = socket_opened sh)
          by (destruct a; reflexivity).
        split; [|split].
        -- split; [exact Ht'|]. split; [congruence|]. split; [congruence|].
           split; [intros a'; now rewrite Hl', Hl1|].
           split.
           ++ rewrite Hc', cache_of_set_state, Hcb. reflexivity.
           ++ intros a' Hempty. rewrite Hfr'.
              ** apply state_set_state_other. intros <-.
                 rewrite (Hempty f (or_introl eq_refl) Hta) in Hpos. cbn in Hpos. lia.
              ** intros g Hg. apply Hempty. now right.
        -- eapply same_table_trans; [apply same_table_sent_token | exact Hsame].
        -- rewrite Htr, trace_sent_token_sends, Hfd1, cache_of_set_state, Hcb, <- app_assoc.
           rewrite <- map_app. reflexivity.
      * (* no value: the cached one is sent *)
        assert (Hv : val_str f = []) by (destruct (val_str f); [reflexivity | cbn in Hzero; lia]).
        pose proof (Ht a) as Hca.
        rewrite (write_update_field_keep f a w sh _ Hs Hta Hv Hca),
          (row_tokens_keep _ f r a Hta Hv). cbv beta iota. cbn [fst snd].
        assert (Hsw : share (sent_token (socket sh) (CLib.cstr (field_name f))
                               (CLib.cstr (state a sh)) w) = Some sh) by exact Hs.
        destruct (IH _ sh Hsw Ht (Hfit_r sh (fun _ => eq_refl)))
          as (w' & sh' & Hrun' & Hs' & Hw' & Hsame & Htr).
        destruct Hw' as (Ht' & Hfd' & Hop' & Hl' & Hc' & Hfr').
        exists w', sh'. split; [exact Hrun'|]. split; [exact Hs'|].
        split; [|split].
        -- split; [exact Ht'|]. split; [exact Hfd'|]. split; [exact Hop'|].
           split; [exact Hl'|]. split.
           ++ rewrite Hc', cache_set_same. reflexivity.
           ++ intros a' Hempty. apply Hfr'. intros g Hg. apply Hempty. now right.
        -- eapply same_table_trans; [|exact Hsame]. repeat split.
        -- rewrite Htr, trace_sent_token, cache_set_same, cache_get_of, <- app_assoc.
           reflexivity.
    + rewrite (write_update_field_skip f w Hta), (row_tokens_skip _ f r Hta). cbv beta iota.
      destruct (IH w sh Hs Ht (Hfit_r sh (fun _ => eq_refl)))
        as (w' & sh' & Hrun' & Hs' & Hw' & Hsame & Htr).
      destruct Hw' as (Ht' & Hfd' & Hop' & Hl' & Hc' & Hfr').
      exists w', sh'. split; [exact Hrun'|]. split; [exact Hs'|].
      split; [|split; assumption].
      split; [exact Ht'|]. split; [exact Hfd'|]. split; [exact Hop'|].
      split; [exact Hl'|]. split; [exact Hc'|].
      intros a' Hempty. apply Hfr'. intros g Hg. apply Hempty. now right.
Qed.



Lemma write_update_row_spec w sh :
  share w = Some sh -> terminated sh -> fits (field w) sh ->
  exists w' sh',
    run write_update_row w = inr (0%Z, w') /\
    share w' = Some sh' /\ written (field w) sh sh' /\ same_table w w' /\
    trace w' = trace w ++
               map (EvSend (socket sh)) (fst (row_tokens (cache_of sh) (field w)) ++ [[LF]]).
Proof.
  intros Hs Ht Hfit.
  destruct (for_each_write_run (field w) w sh Hs Ht Hfit)
    as (w1 & sh1 & Hrun & Hs1 & Hw & Hsame & Htr).
  exists (log (EvSend (socket sh1) [LF]) w1), sh1.
  split; [now apply write_update_row_run|]. split; [exact Hs1|]. split; [exact Hw|].
  split; [exact Hsame|].
  destruct Hw as (_ & Hfd & _). unfold log. cbn [trace].
  rewrite Htr, Hfd, map_app, <- app_assoc. reflexivity.
Qed.

Lemma cstr_app_nul pre post :
  Forall (fun c => c <> NUL) pre -> CLib.cstr (pre ++ NUL :: post) = pre.
Proof.
  induction 1 as [|c r Hc _ IH]; [reflexivity|]. cbn [app CLib.cstr].
  destruct (Ascii.eqb_spec c NUL); [contradiction | now rewrite IH].
Qed.

Lemma for_each_write_unmatched fs w :
  (forall f, In f fs -> write_target (field_name f) = None) ->
  run (for_each write_update_field fs) w = inr (tt, w).
Proof.
  induction fs as [|f r IH]; intros H; cbn [for_each]; run_steps; [reflexivity|].
  rewrite (write_update_field_skip f w (H f (or_introl eq_refl))). cbv beta iota.
  apply IH. intros g Hg. apply H. now right.
Qed.

Lemma terminated_fresh_share fd : terminated (fresh_share fd).
Proof. intros a; destruct a; reflexivity. Qed.

Lemma fits_demo_world : fits (field demo_world) (fresh_share 3).
Proof.
  intros f a Hin Ht. cbn [field demo_world] in Hin.
  destruct Hin as [<-|[<-|[<-|[]]]]; destruct a; vm_compute; lia.
Qed.

(** X3.  When the four arrays of the share hold terminated strings and every
    column that is taken for an attribute carries a value shorter than that
    attribute's array, [write_row] and [update_row] return 0; afterwards the
    arrays still hold terminated strings and have the sizes they had, the
    socket and the connected flag of the share are unchanged, and the table
    name, the columns, the scan flag and the row counter are as before. *)
Theorem write_returns_and_keeps_the_cache_readable buf old_data new_data w sh :
  share w = Some sh -> terminated sh -> fits (field w) sh ->
  exists w' sh',
    run (write_row buf) w = inr (0%Z, w') /\
    run (update_row old_data new_data) w = inr (0%Z, w') /\
    share w' = Some sh' /\ terminated sh' /\
    socket sh' = socket sh /\ socket_opened sh' = socket_opened sh /\
    (forall a, length (state a sh') = length (state a sh)) /\
    same_table w w'.
Proof.
  intros Hs Ht Hfit.
  destruct (write_update_row_spec w sh Hs Ht Hfit)
    as (w' & sh' & Hrun & Hs' & (Ht' & Hfd & Hop & Hlen & _) & Hsame & _).
  exists w', sh'. repeat split; try assumption; apply Hsame.
Qed.

Lemma write_returns_and_keeps_the_cache_readable_demo :
  exists w' sh',
    run (write_row []) demo_world = inr (0%Z, w') /\
    run (update_row [] []) demo_world = inr (0%Z, w') /\
    share w' = Some sh' /\ terminated sh' /\
    socket sh' = socket (fresh_share 3) /\
    socket_opened sh' = socket_opened (fresh_share 3) /\
    (forall a, length (state a sh') = length (state a (fresh_share 3))) /\
    same_table demo_world w'.
Proof.
  apply (write_returns_and_keeps_the_cache_readable [] [] [] demo_world (fresh_share 3)
           eq_refl (terminated_fresh_share 3) fits_demo_world).
Defined.

(** X4.  Under the same conditions the only system calls of a write are
    transmissions on the socket of the share, and their bytes are the encoded
    row: for each matched column in table order the name, a colon, the value
    (the column's up to its first zero byte, or the cached one when the column
    is empty) and a comma, then one newline.  The cache afterwards is the one
    the encoder computes. *)
Theorem write_sends_the_encoded_row buf w sh :
  share w = Some sh -> terminated sh -> fits (field w) sh ->
  exists w' sh',
    run (write_row buf) w = inr (0%Z, w') /\ share w' = Some sh' /\
    trace w' = trace w ++
               map (EvSend (socket sh)) (fst (row_tokens (cache_of sh) (field w)) ++ [[LF]]) /\
    wire (trace w') =
      wire (trace w) ++ concat (fst (row_tokens (cache_of sh) (field w))) ++ [LF] /\
    cache_of sh' = snd (row_tokens (cache_of sh) (field w)).
Proof.
  intros Hs Ht Hfit.
  destruct (write_update_row_spec w sh Hs Ht Hfit)
    as (w' & sh' & Hrun & Hs' & (_ & _ & _ & _ & Hc & _) & _ & Htr).
  exists w', sh'. split; [exact Hrun|]. split; [exact Hs'|]. split; [exact Htr|].
  split; [|exact Hc].
  rewrite Htr, wire_app, wire_sends, concat_app. cbn [concat]. now rewrite app_nil_r.
Qed.

Lemma write_sends_the_encoded_row_demo :
  exists w' sh',
    run (write_row []) demo_world = inr (0%Z, w') /\ share w' = Some sh' /\
    trace w' = trace demo_world ++
               map (EvSend (socket (fresh_share 3)))
                   (fst (row_tokens (cache_of (fresh_share 3)) (field demo_world)) ++ [[LF]]) /\
    wire (trace w') =
      wire (trace demo_world) ++
      concat (fst (row_tokens (cache_of (fresh_share 3)) (field demo_world))) ++ [LF] /\
    cache_of sh' = snd (row_tokens (cache_of (fresh_share 3)) (field demo_world)).
Proof.
  apply (write_sends_the_encoded_row [] demo_world (fresh_share 3)
           eq_refl (terminated_fresh_share 3) fits_demo_world).
Defined.

(** X5.  Under the same conditions a write leaves the array of an attribute
    exactly as it was unless some column taken for that attribute has a
    non-empty value. *)
Theorem write_leaves_other_attributes buf w sh a :
  share w = Some sh -> terminated sh -> fits (field w) sh ->
  (forall f, In f (field w) -> write_target (field_name f) = Some a -> val_str f = []) ->
  exists w' sh',
    run (write_row buf) w = inr (0%Z, w') /\ share w' = Some sh' /\
    state a sh' = state a sh.
Proof.
  intros Hs Ht Hfit Hempty.
  destruct (write_update_row_spec w sh Hs Ht Hfit)
    as (w' & sh' & Hrun & Hs' & (_ & _ & _ & _ & _ & Hfr) & _ & _).
  exists w', sh'. split; [exact Hrun|]. split; [exact Hs'|]. now apply Hfr.
Qed.

Lemma write_leaves_other_attributes_demo :
  exists w' sh',
    run (write_row []) demo_world = inr (0%Z, w') /\ share w' = Some sh' /\
    state Temperature sh' = state Temperature (fresh_share 3).
Proof.
  apply (write_leaves_other_attributes [] demo_world (fresh_share 3) Temperature
           eq_refl (terminated_fresh_share 3) fits_demo_world).
  intros f Hin Ht. cbn [field demo_world] in Hin.
  destruct Hin as [<-|[<-|[<-|[]]]]; [discriminate Ht | reflexivity | reflexivity].
Defined.

(** X6.  When no column of the table is taken for an attribute, a write returns
    0, sends the single byte newline on the socket of the share and changes
    nothing else, whatever the arrays hold. *)
Theorem write_of_unmatched_columns_sends_a_newline buf w sh :
  share w = Some sh ->
  (forall f, In f (field w) -> write_target (field_name f) = None) ->
  run (write_row buf) w = inr (0%Z, log (EvSend (socket sh) [LF]) w).
Proof.
  intros Hs Hnone. unfold write_row.
  apply write_update_row_run; [now apply for_each_write_unmatched | exact Hs].
Qed.

Lemma write_of_unmatched_columns_sends_a_newline_demo :
  run (write_row [])
      (mkWorld (lit "host:9000") [mkField (lit "fan") 16 (lit "high")]
               (Some (raw_share 4)) false 0 [])
  = inr (0%Z, log (EvSend (socket (raw_share 4)) [LF])
                  (mkWorld (lit "host:9000") [mkField (lit "fan") 16 (lit "high")]
                           (Some (raw_share 4)) false 0 [])).
Proof.
  apply (write_of_unmatched_columns_sends_a_newline []
           (mkWorld (lit "host:9000") [mkField (lit "fan") 16 (lit "high")]
                    (Some (raw_share 4)) false 0 []) (raw_share 4) eq_refl).
  intros f [<-|[]]. reflexivity.
Defined.

(** X7.  A value that contains a zero byte is cached, and sent, only up to that
    byte: what follows it is dropped, and a non-empty value that starts with a
    zero byte leaves the attribute with the empty string. *)
Theorem write_caches_up_to_the_first_zero_byte f a w sh pre post :
  share w = Some sh -> write_target (field_name f) = Some a ->
  val_str f = pre ++ NUL :: post -> Forall (fun c => c <> NUL) pre ->
  length (val_str f) < length (state a sh) ->
  exists b,
    run (write_update_field f) w =
      inr (tt, sent_token (socket sh) (CLib.cstr (field_name f)) pre
                 (set_share (set_state a b sh) w)) /\
    cached a (set_state a b sh) = Some pre.
Proof.
  intros Hs Ht Hv Hpre Hfit.
  assert (Hpos : 0 < length (val_str f)) by (rewrite Hv, length_app; cbn; lia).
  destruct (write_update_field_store f a w sh Hs Ht Hpos Hfit) as (b & _ & Hb & _ & Hrun).
  rewrite Hv, (cstr_app_nul pre post Hpre) in Hb, Hrun.
  exists b. split; [exact Hrun|]. unfold cached. now rewrite state_set_state_same.
Qed.

Lemma write_caches_up_to_the_first_zero_byte_demo :
  exists b,
    run (write_update_field (mkField (lit "mode") 16 (NUL :: lit "heat"))) long_world =
      inr (tt, sent_token (socket (fresh_share 3))
                 (CLib.cstr (field_name (mkField (lit "mode") 16 (NUL :: lit "heat")))) []
                 (set_share (set_state Mode b (fresh_share 3)) long_world)) /\
    cached Mode (set_state Mode b (fresh_share 3)) = Some [].
Proof.
  apply (write_caches_up_to_the_first_zero_byte
           (mkField (lit "mode") 16 (NUL :: lit "heat")) Mode long_world (fresh_share 3)
           [] (lit "heat") eq_refl eq_refl eq_refl (Forall_nil _)).
  vm_compute; lia.
Defined.


(** ** Scans after a reset *)

Lemma scan_value_unknown s f :
  (forall a, cached a s = Some IRCON_COMMAND_UNKNOWN) -> scan_value s f = IRCON_COMMAND_UNKNOWN.
Proof.
  intros H. unfold scan_value. destruct (scan_source f) as [a|]; [|reflexivity].
  symmetry. exact (cached_terminated a s _ (H a)).
Qed.

Lemma map_store_unknown s fs :
  (forall a, cached a s = Some IRCON_COMMAND_UNKNOWN) ->
  map val (map (fun f => store f (scan_value s f)) fs) = map (fun _ => IRCON_COMMAND_UNKNOWN) fs.
Proof.
  intros H. rewrite map_map. apply map_ext. intros f. cbn [val store].
  now apply scan_value_unknown.
Qed.

Lemma map_store_names s fs :
  map field_name (map (fun f => store f (scan_value s f)) fs) = map field_name fs.
Proof. rewrite map_map. now apply map_ext. Qed.

(** X9.  After [delete_row] (reset length at least 8 and within the arrays) a
    scan returns a row in which every column of the table, whatever its name,
    holds "unknown"; the column names are unchanged. *)
Theorem scan_after_delete_is_all_unknown L buf scan w sh :
  share w = Some sh -> 8 <= L -> roomy L sh ->
  exists w',
    run (delete_row L buf ;; rnd_init scan ;; rnd_next buf) w = inr (0%Z, w') /\
    map val (field w') = map (fun _ => IRCON_COMMAND_UNKNOWN) (field w) /\
    map field_name (field w') = map field_name (field w).
Proof.
  intros Hs H8 Hr.
  assert (Hc : forall a, cached a (reset_share L sh) = Some IRCON_COMMAND_UNKNOWN)
    by (intros a; now apply reset_share_cached).
  assert (Ht : terminated (reset_share L sh)) by now apply reset_share_terminated.
  rewrite run_bind. unfold delete_row. rewrite (reset_all_run L _ _ w sh Hs Hr).
  run_steps. unfold rnd_init. run_steps.
  erewrite rnd_next_row; [|reflexivity|exact Ht|reflexivity].
  eexists. split; [reflexivity|]. unfold scanned_world. cbn [field].
  split; [now apply map_store_unknown | apply map_store_names].
Qed.

Lemma scan_after_delete_is_all_unknown_demo :
  exists w',
    run (delete_row 16 [] ;; rnd_init true ;; rnd_next []) prefix_world = inr (0%Z, w') /\
    map val (field w') = map (fun _ => IRCON_COMMAND_UNKNOWN) (field prefix_world) /\
    map field_name (field w') = map field_name (field prefix_world).
Proof.
  apply (scan_after_delete_is_all_unknown 16 [] true prefix_world (fresh_share 3) eq_refl).
  - lia.
  - intros a; destruct a; vm_compute; lia.
Defined.

(** X10.  After an [open] that connects (identifier shorter than 32 bytes with a
    port [atoi] can read, socket created, reset length at least 8 and within
    the arrays) a scan returns a row in which every column holds "unknown". *)
Theorem scan_after_open_is_all_unknown L D os nm mode tl scan buf w host seg p :
  socket_opened (share_at_open os w) = false ->
  (0 <= ret_socket os)%Z ->
  Forall (fun c => c <> NUL) (table_name w) -> length (table_name w) < 32 ->
  split_colon (table_name w) = (host, seg) -> segment_port seg = Some p ->
  8 <= L -> roomy L (share_at_open os w) ->
  exists w',
    run (open L D os nm mode tl ;; rnd_init scan ;; rnd_next buf) w = inr (0%Z, w') /\
    map val (field w') = map (fun _ => IRCON_COMMAND_UNKNOWN) (field w) /\
    map field_name (field w') = map field_name (field w).
Proof.
  intros Hclosed Hfd Hnul Hlen Hsplit Hport H8 Hr.
  set (sh1 := reset_share L
                (set_socket_opened true (set_socket (ret_socket os) (share_at_open os w)))).
  assert (Hr1 : roomy L (set_socket_opened true (set_socket (ret_socket os) (share_at_open os w))))
    by now apply roomy_connected.
  assert (Hc : forall a, cached a sh1 = Some IRCON_COMMAND_UNKNOWN)
    by (intros a; now apply reset_share_cached).
  assert (Ht : terminated sh1) by now apply reset_share_terminated.
  rewrite run_bind, (open_run L D os nm mode tl w host seg p) by assumption.
  cbv beta iota. unfold rnd_init. run_steps.
  erewrite rnd_next_row; [|reflexivity|exact Ht|reflexivity].
  eexists. split; [reflexivity|]. unfold scanned_world. cbn [field].
  split; [now apply map_store_unknown | apply map_store_names].
Qed.

Lemma scan_after_open_is_all_unknown_demo :
  exists w',
    run (open 16 51000 (mkAnswers 3 0 (raw_share 16)) [] 0%Z 0%Z ;; rnd_init true ;; rnd_next [])
        (mkWorld (lit "host:9000") (attribute_columns 16 16 16 16) None false 0 [])
      = inr (0%Z, w') /\
    map val (field w') =
      map (fun _ => IRCON_COMMAND_UNKNOWN) (attribute_columns 16 16 16 16) /\
    map field_name (field w') = map field_name (attribute_columns 16 16 16 16).
Proof.
  apply (scan_after_open_is_all_unknown 16 51000 (mkAnswers 3 0 (raw_share 16)) [] 0%Z 0%Z
           true [] (mkWorld (lit "host:9000") (attribute_columns 16 16 16 16) None false 0 [])
           (lit "host") (Some (lit "9000")) 9000%Z).
  - reflexivity.
  - cbn; lia.
  - repeat constructor; discriminate.
  - cbn; lia.
  - reflexivity.
  - reflexivity.
  - lia.
  - apply roomy_ctor, roomy_raw_share.
Defined.


(** ** Writing a row and reading it back *)

Lemma pick_cstr v old : Forall (fun c => c <> NUL) v ->
  (if 0 <? length v then CLib.cstr v else CLib.cstr old) = pick v old.
Proof. intros H. unfold pick. now rewrite (CFacts.cstr_clean v H). Qed.

Lemma row_tokens_attribute_row c n1 n2 n3 n4 v1 v2 v3 v4 :
  Forall (fun c => c <> NUL) v1 -> Forall (fun c => c <> NUL) v2 ->
  Forall (fun c => c <> NUL) v3 -> Forall (fun c => c <> NUL) v4 ->
  snd (row_tokens c (attribute_row n1 n2 n3 n4 v1 v2 v3 v4)) =
    mkCache (if 0 <? length v1 then v1 else c_mode c)
            (if 0 <? length v2 then v2 else c_temperature c)
            (if 0 <? length v3 then v3 else c_power c)
            (if 0 <? length v4 then v4 else c_angle c).
Proof.
  intros H1 H2 H3 H4. unfold attribute_row. cbn [row_tokens field_name val_str val].
  change (write_target IRCON_COMMAND_MODE) with (Some Mode).
  change (write_target IRCON_COMMAND_TEMPERATURE) with (Some Temperature).
  change (write_target IRCON_COMMAND_POWER) with (Some Power).
  change (write_target IRCON_COMMAND_ANGLE) with (Some Angle).
  cbn [fst snd cache_get cache_set c_mode c_temperature c_power c_angle].
  rewrite (CFacts.cstr_clean v1 H1), (CFacts.cstr_clean v2 H2),
    (CFacts.cstr_clean v3 H3), (CFacts.cstr_clean v4 H4).
  reflexivity.
Qed.

(** X8.  On a table whose columns are mode, temperature, power, angle (each at
    least one byte wide), a write of four values without zero bytes that are
    shorter than their arrays, followed by [rnd_init] and [rnd_next], returns
    0 and reads back, column by column, the value written, or the value cached
    before the write where the written value is empty. *)
Theorem write_then_scan_round_trip buf scan n1 n2 n3 n4 v1 v2 v3 v4 w sh :
  share w = Some sh -> terminated sh ->
  field w = attribute_row n1 n2 n3 n4 v1 v2 v3 v4 ->
  1 <= n1 -> 1 <= n2 -> 1 <= n3 -> 1 <= n4 ->
  Forall (fun c => c <> NUL) v1 -> Forall (fun c => c <> NUL) v2 ->
  Forall (fun c => c <> NUL) v3 -> Forall (fun c => c <> NUL) v4 ->
  length v1 < length (state_mode sh) -> length v2 < length (state_temperature sh) ->
  length v3 < length (state_power sh) -> length v4 < length (state_angle sh) ->
  exists w',
    run (write_row buf ;; rnd_init scan ;; rnd_next buf) w = inr (0%Z, w') /\
    map val (field w') =
      [pick v1 (state_mode sh); pick v2 (state_temperature sh);
       pick v3 (state_power sh); pick v4 (state_angle sh)].
Proof.
  intros Hs Ht Hf N1 N2 N3 N4 C1 C2 C3 C4 L1 L2 L3 L4.
  assert (Hfit : fits (field w) sh).
  { intros f a Hin Hta. rewrite Hf in Hin. unfold attribute_row in Hin.
    destruct Hin as [<-|[<-|[<-|[<-|[]]]]];
      cbn [field_name] in Hta;
      [change (write_target IRCON_COMMAND_MODE) with (Some Mode) in Hta
      |change (write_target IRCON_COMMAND_TEMPERATURE) with (Some Temperature) in Hta
      |change (write_target IRCON_COMMAND_POWER) with (Some Power) in Hta
      |change (write_target IRCON_COMMAND_ANGLE) with (Some Angle) in Hta];
      injection Hta as <-; assumption. }
  destruct (write_update_row_spec w sh Hs Ht Hfit)
    as (w1 & sh1 & Hrun & Hs1 & (Ht1 & _ & _ & _ & Hc & _) & (_ & Hf1 & _ & _) & _).
  rewrite Hf, (row_tokens_attribute_row _ n1 n2 n3 n4 v1 v2 v3 v4 C1 C2 C3 C4) in Hc.
  injection Hc as Em Etm Ep Ea. cbn [cache_of c_mode c_temperature c_power c_angle] in *.
  rewrite run_bind. unfold write_row. rewrite Hrun. cbv beta iota.
  unfold rnd_init. run_steps.
  erewrite rnd_next_row; [|exact Hs1|exact Ht1|reflexivity].
  eexists. split; [reflexivity|]. unfold scanned_world. cbn [field set_next_is_eof].
  rewrite Hf1, Hf. unfold attribute_row. cbn [map val store]. unfold scan_value.
  rewrite (scan_source_attr_name Mode n1 _ N1), (scan_source_attr_name Temperature n2 _ N2),
    (scan_source_attr_name Power n3 _ N3), (scan_source_attr_name Angle n4 _ N4).
  cbn [state]. rewrite Em, Etm, Ep, Ea. reflexivity.
Qed.

Lemma write_then_scan_round_trip_demo :
  exists w',
    run (write_row [] ;; rnd_init true ;; rnd_next [])
        (mkWorld (lit "host:9000") (attribute_row 16 16 16 16 [] (lit "21") (lit "on") [])
                 (Some (fresh_share 3)) false 0 [])
      = inr (0%Z, w') /\
    map val (field w') =
      [pick [] (state_mode (fresh_share 3));
       pick (lit "21") (state_temperature (fresh_share 3));
       pick (lit "on") (state_power (fresh_share 3));
       pick [] (state_angle (fresh_share 3))].
Proof.
  apply (write_then_scan_round_trip [] true 16 16 16 16 [] (lit "21") (lit "on") []
           (mkWorld (lit "host:9000") (attribute_row 16 16 16 16 [] (lit "21") (lit "on") [])
                    (Some (fresh_share 3)) false 0 [])
           (fresh_share 3) eq_refl (terminated_fresh_share 3) eq_refl);
    try lia; try (repeat constructor; discriminate); vm_compute; lia.
Defined.

(** ** Opening and closing *)

Lemma close_run w sh : share w = Some sh -> run close w = inr (0%Z, closed_world sh w).
Proof. intros Hs. unfold close. run_steps. unfold closed_world. world. now rewrite <- app_assoc. Qed.

(** X11.  [open] on a share that is marked connected returns 0 and changes
    nothing: no system call is made and the cache is not reset, whatever the
    table name and whatever [socket] and [connect] would have answered. *)
Theorem open_on_a_connected_share_does_nothing L D os nm mode tl w sh :
  share w = Some sh -> socket_opened sh = true ->
  run (open L D os nm mode tl) w = inr (0%Z, w).
Proof. intros Hs Hopen. now apply open_connected with (sh := sh). Qed.

Lemma open_on_a_connected_share_does_nothing_demo :
  run (open 16 51000 (mkAnswers (-1) (-1) (raw_share 0)) [] 0%Z 0%Z) demo_after_power
  = inr (0%Z, demo_after_power).
Proof.
  apply (open_on_a_connected_share_does_nothing 16 51000 (mkAnswers (-1) (-1) (raw_share 0))
           [] 0%Z 0%Z demo_after_power demo_share); reflexivity.
Defined.

(** X12.  When [socket] fails, [open] returns -1 after that one system call,
    stores the failed descriptor in the share, leaves the share marked not
    connected and the four arrays untouched; the next [open], with a [socket]
    that succeeds, creates a socket and connects. *)
Theorem open_after_a_failed_socket_tries_again L D os os' nm mode tl w host seg p :
  socket_opened (share_at_open os w) = false ->
  (ret_socket os < 0)%Z -> (0 <= ret_socket os')%Z ->
  Forall (fun c => c <> NUL) (table_name w) -> length (table_name w) < 32 ->
  split_colon (table_name w) = (host, seg) -> segment_port seg = Some p ->
  roomy L (share_at_open os w) ->
  exists w1 sh1 w2 sh2,
    run (open L D os nm mode tl) w = inr ((-1)%Z, w1) /\
    share w1 = Some sh1 /\ socket_opened sh1 = false /\ socket sh1 = ret_socket os /\
    (forall a, state a sh1 = state a (share_at_open os w)) /\
    trace w1 = trace w ++ [EvSocket (ret_socket os)] /\
    run (open L D os' nm mode tl) w1 = inr (0%Z, w2) /\
    share w2 = Some sh2 /\ socket_opened sh2 = true /\ socket sh2 = ret_socket os' /\
    trace w2 = trace w1 ++
               [EvSocket (ret_socket os');
                EvConnect (ret_socket os') host
                  (CLib.uint16 (if (p =? 0)%Z then D else p)) (ret_connect os')].
Proof.
  intros Hclosed Hfail Hok Hnul Hlen Hsplit Hport Hroom.
  pose proof (open_socket_failure L D os nm mode tl w Hclosed Hfail) as H1.
  set (w1 := mkWorld _ _ _ _ _ _) in H1.
  set (sh1 := set_socket (ret_socket os) (share_at_open os w)).
  assert (Hs1 : share_at_open os' w1 = sh1) by reflexivity.
  assert (Hst : forall a, state a sh1 = state a (share_at_open os w))
    by (intros a; destruct a; reflexivity).
  pose proof (open_run L D os' nm mode tl w1 host seg p) as H2.
  rewrite Hs1 in H2.
  specialize (H2 Hclosed Hok Hnul Hlen Hsplit Hport
                 ltac:(intros a; rewrite Hst; apply Hroom)).
  exists w1, sh1. eexists. eexists.
  split; [exact H1|]. split; [reflexivity|]. split; [exact Hclosed|].
  split; [reflexivity|]. split; [exact Hst|]. split; [reflexivity|].
  split; [exact H2|]. repeat split.
Qed.

Lemma open_after_a_failed_socket_tries_again_demo :
  exists w1 sh1 w2 sh2,
    run (open 16 51000 (mkAnswers (-1) 0 (raw_share 16)) [] 0%Z 0%Z)
        (mkWorld (lit "host") [] None false 0 []) = inr ((-1)%Z, w1) /\
    share w1 = Some sh1 /\ socket_opened sh1 = false /\ socket sh1 = (-1)%Z /\
    (forall a, state a sh1 =
               state a (share_at_open (mkAnswers (-1) 0 (raw_share 16))
                          (mkWorld (lit "host") [] None false 0 []))) /\
    trace w1 = [] ++ [EvSocket (-1)] /\
    run (open 16 51000 (mkAnswers 4 0 (raw_share 16)) [] 0%Z 0%Z) w1 = inr (0%Z, w2) /\
    share w2 = Some sh2 /\ socket_opened sh2 = true /\ socket sh2 = 4%Z /\
    trace w2 = trace w1 ++ [EvSocket 4; EvConnect 4 (lit "host") (CLib.uint16 51000) 0].
Proof.
  apply (open_after_a_failed_socket_tries_again 16 51000 (mkAnswers (-1) 0 (raw_share 16))
           (mkAnswers 4 0 (raw_share 16)) [] 0%Z 0%Z
           (mkWorld (lit "host") [] None false 0 []) (lit "host") None 0%Z).
  - reflexivity.
  - cbn; lia.
  - cbn; lia.
  - repeat constructor; discriminate.
  - cbn; lia.
  - reflexivity.
  - reflexivity.
  - apply roomy_ctor, roomy_raw_share.
Defined.

(** X13.  [close] does not test the connected flag: on any share it calls
    [shutdown] and [close] on the stored descriptor (also one that [socket]
    returned as a failure), clears the flag, returns 0, and leaves the four
    arrays and the table as they were. *)
Theorem close_shuts_down_whatever_the_flag w sh :
  share w = Some sh ->
  exists w' sh',
    run close w = inr (0%Z, w') /\ share w' = Some sh' /\
    socket_opened sh' = false /\ socket sh' = socket sh /\
    (forall a, state a sh' = state a sh) /\
    trace w' = trace w ++ [EvShutdown (socket sh); EvClose (socket sh)] /\
    same_table w w'.
Proof.
  intros Hs. exists (closed_world sh w), (set_socket_opened false sh).
  split; [now apply close_run|]. repeat split.
Qed.

Lemma close_shuts_down_whatever_the_flag_demo :
  exists w' sh',
    run close (mkWorld (lit "host") [] (Some (mkShare (-1) false [] [] [] [])) false 0 [])
      = inr (0%Z, w') /\
    share w' = Some sh' /\
    socket_opened sh' = false /\ socket sh' = socket (mkShare (-1) false [] [] [] []) /\
    (forall a, state a sh' = state a (mkShare (-1) false [] [] [] [])) /\
    trace w' = [] ++ [EvShutdown (socket (mkShare (-1) false [] [] [] []));
                      EvClose (socket (mkShare (-1) false [] [] [] []))] /\
    same_table (mkWorld (lit "host") [] (Some (mkShare (-1) false [] [] [] [])) false 0 []) w'.
Proof.
  apply (close_shuts_down_whatever_the_flag
           (mkWorld (lit "host") [] (Some (mkShare (-1) false [] [] [] [])) false 0 [])
           (mkShare (-1) false [] [] [] []) eq_refl).
Defined.

(** X14.  [close] followed by an [open] that connects shuts the old descriptor
    down, closes it, creates and connects a new socket, and leaves all four
    cached attributes equal to "unknown": what was written before the close is
    not kept. *)
Theorem close_then_open_reconnects_and_resets L D os nm mode tl w sh host seg p :
  share w = Some sh -> (0 <= ret_socket os)%Z ->
  Forall (fun c => c <> NUL) (table_name w) -> length (table_name w) < 32 ->
  split_colon (table_name w) = (host, seg) -> segment_port seg = Some p ->
  8 <= L -> roomy L sh ->
  exists w' sh',
    run (close ;; open L D os nm mode tl) w = inr (0%Z, w') /\
    share w' = Some sh' /\ socket_opened sh' = true /\ socket sh' = ret_socket os /\
    (forall a, cached a sh' = Some IRCON_COMMAND_UNKNOWN) /\
    trace w' = trace w ++
               [EvShutdown (socket sh); EvClose (socket sh); EvSocket (ret_socket os);
                EvConnect (ret_socket os) host
                  (CLib.uint16 (if (p =? 0)%Z then D else p)) (ret_connect os)].
Proof.
  intros Hs Hfd Hnul Hlen Hsplit Hport H8 Hroom.
  assert (Hr0 : roomy L (set_socket_opened false sh))
    by (intros a; specialize (Hroom a); destruct a; exact Hroom).
  rewrite run_bind, (close_run w sh Hs). cbv beta iota.
  rewrite (open_run L D os nm mode tl (closed_world sh w) host seg p);
    try assumption; try reflexivity.
  eexists. eexists. split; [reflexivity|]. split; [reflexivity|].
  split; [reflexivity|]. split; [reflexivity|]. split.
  - intros a. apply reset_share_cached; [exact H8 | now apply roomy_connected].
  - unfold opened_world, closed_world. cbn [trace]. now rewrite <- app_assoc.
Qed.

Lemma close_then_open_reconnects_and_resets_demo :
  exists w' sh',
    run (close ;; open 16 51000 (mkAnswers 4 0 (raw_share 0)) [] 0%Z 0%Z) demo_after_power
      = inr (0%Z, w') /\
    share w' = Some sh' /\ socket_opened sh' = true /\ socket sh' = 4%Z /\
    (forall a, cached a sh' = Some IRCON_COMMAND_UNKNOWN) /\
    trace w' = trace demo_after_power ++
               [EvShutdown (socket demo_share); EvClose (socket demo_share); EvSocket 4;
                EvConnect 4 (lit "host") (CLib.uint16 9000) 0].
Proof.
  apply (close_then_open_reconnects_and_resets 16 51000 (mkAnswers 4 0 (raw_share 0))
           [] 0%Z 0%Z demo_after_power demo_share (lit "host") (Some (lit "9000")) 9000%Z).
  - reflexivity.
  - cbn; lia.
  - vm_compute. repeat constructor; discriminate.
  - vm_compute; lia.
  - reflexivity.
  - reflexivity.
  - lia.
  - intros a; destruct a; vm_compute; lia.
Defined.


(** ** The end of a scan, and the row counter *)

Lemma rnd_nexts_at_end n buf w :
  next_is_eof w = true ->
  run (rnd_nexts n buf) w = inr (repeat HA_ERR_END_OF_FILE n, w).
Proof.
  intros He. induction n as [|n IH]; cbn [rnd_nexts repeat]; run_steps; [reflexivity|].
  rewrite (rnd_next_end buf w He). cbv beta iota. run_steps. rewrite IH. run_steps. reflexivity.
Qed.

(** X15.  Once [rnd_next] has returned the row, [rnd_end] and any number of
    further [rnd_next] calls change nothing and every one of those [rnd_next]
    calls returns HA_ERR_END_OF_FILE: only [rnd_init] re-arms the scan. *)
Theorem scan_stays_at_the_end_until_rnd_init n scan buf w sh :
  share w = Some sh -> terminated sh ->
  exists w',
    run (rnd_init scan ;; rnd_next buf) w = inr (0%Z, w') /\
    run (rnd_end ;; rnd_nexts n buf) w' = inr (repeat HA_ERR_END_OF_FILE n, w').
Proof.
  intros Hs Ht. unfold rnd_init. run_steps.
  erewrite rnd_next_row; [|exact Hs|exact Ht|reflexivity].
  eexists. split; [reflexivity|]. unfold rnd_end. run_steps.
  now apply rnd_nexts_at_end.
Qed.

Lemma scan_stays_at_the_end_until_rnd_init_demo :
  exists w',
    run (rnd_init true ;; rnd_next []) demo_world = inr (0%Z, w') /\
    run (rnd_end ;; rnd_nexts 5 []) w' = inr (repeat HA_ERR_END_OF_FILE 5, w').
Proof.
  apply (scan_stays_at_the_end_until_rnd_init 5 true [] demo_world (fresh_share 3)
           eq_refl (terminated_fresh_share 3)).
Defined.

Lemma incr_records_mod x : incr_records (x mod 2 ^ 64) = incr_records x.
Proof. unfold incr_records. now rewrite Zplus_mod_idemp_l. Qed.

Lemma scan_cycles_records n : forall scan buf w sh,
  share w = Some sh -> terminated sh ->
  exists w',
    run (scan_cycles n scan buf) w = inr (repeat (0%Z, HA_ERR_END_OF_FILE) n, w') /\
    (stats_records w' mod 2 ^ 64 = (stats_records w + Z.of_nat n) mod 2 ^ 64)%Z /\
    (0 < n -> stats_records w' = ((stats_records w + Z.of_nat n) mod 2 ^ 64)%Z).
Proof.
  induction n as [|n IH]; intros scan buf w sh Hs Ht.
  - exists w. cbn [scan_cycles repeat]. run_steps. rewrite Z.add_0_r.
    repeat split. lia.
  - cbn [scan_cycles repeat]. run_steps. rewrite (scan_cycle_run scan buf w sh Hs Ht).
    cbv beta iota.
    destruct (IH scan buf (scanned_world sh w) sh Hs Ht) as (w' & Hrun & Hmod & Hpos).
    exists w'. run_steps. rewrite Hrun. run_steps. split; [reflexivity|].
    unfold scanned_world in Hmod, Hpos. cbn [stats_records] in Hmod, Hpos.
    unfold incr_records in Hmod, Hpos.
    assert (E : (((stats_records w + 1) mod 2 ^ 64 + Z.of_nat n) mod 2 ^ 64
                 = (stats_records w + Z.of_nat (S n)) mod 2 ^ 64)%Z).
    { rewrite Zplus_mod_idemp_l. f_equal. lia. }
    split.
    + now rewrite Hmod.
    + intros _. destruct n as [|n].
      * cbn [scan_cycles] in Hrun. rewrite run_ret in Hrun. injection Hrun as <-.
        unfold scanned_world. cbn [stats_records]. unfold incr_records. f_equal.
      * rewrite Hpos by lia. exact E.
Qed.

(** X16.  [info] sets the row counter to 2 and each scan adds one to it, modulo
    2^64: the [rnd_next] that returns the row counts, the one that returns
    HA_ERR_END_OF_FILE does not. *)
Theorem info_then_scans_count_the_rows n flag scan buf w sh :
  share w = Some sh -> terminated sh ->
  exists w',
    run (info flag ;; scan_cycles n scan buf) w
      = inr (repeat (0%Z, HA_ERR_END_OF_FILE) n, w') /\
    stats_records w' = ((2 + Z.of_nat n) mod 2 ^ 64)%Z.
Proof.
  intros Hs Ht. unfold info. run_steps.
  destruct (scan_cycles_records n scan buf (set_stats_records 2 w) sh Hs Ht)
    as (w' & Hrun & Hmod & Hpos).
  exists w'. split; [exact Hrun|].
  destruct n as [|n].
  - cbn [scan_cycles] in Hrun. rewrite run_ret in Hrun. injection Hrun as <-. reflexivity.
  - apply Hpos. lia.
Qed.

Lemma info_then_scans_count_the_rows_demo :
  exists w',
    run (info 0%Z ;; scan_cycles 3 true []) demo_world
      = inr (repeat (0%Z, HA_ERR_END_OF_FILE) 3, w') /\
    stats_records w' = ((2 + Z.of_nat 3) mod 2 ^ 64)%Z.
Proof.
  apply (info_then_scans_count_the_rows 3 0%Z true [] demo_world (fresh_share 3)
           eq_refl (terminated_fresh_share 3)).
Defined.

(** ** The table lock *)

Lemma store_locks_cons {A} (me : A) r reqs st :
  store_locks me (r :: reqs) st = store_locks me reqs (store_lock me r st).
Proof. reflexivity. Qed.

Lemma store_lock_set {A} (me : A) r t to :
  t <> TL_UNLOCK -> store_lock me r (t, to) = (t, to ++ [me]).
Proof.
  intros Ht. unfold store_lock. cbn [fst snd].
  destruct (Z.eqb_spec t TL_UNLOCK); [contradiction|]. now rewrite andb_false_r.
Qed.

Lemma store_lock_unset {A} (me : A) r to :
  store_lock me r (TL_UNLOCK, to) =
    (if negb (r =? TL_IGNORE)%Z then r else TL_UNLOCK, to ++ [me]).
Proof. unfold store_lock. cbn [fst snd]. now rewrite Z.eqb_refl, andb_true_r. Qed.

Lemma store_locks_set {A} (me : A) reqs t to :
  t <> TL_UNLOCK ->
  store_locks me reqs (t, to) = (t, to ++ repeat me (length reqs)).
Proof.
  intros Ht. revert to. induction reqs as [|r reqs IH]; intros to.
  - cbn. now rewrite app_nil_r.
  - rewrite store_locks_cons, (store_lock_set me r t to Ht), IH, <- app_assoc. reflexivity.
Qed.

(** X17.  Starting from an unlocked handler, after any sequence of [store_lock]
    calls the type of the handler's lock is the first requested type that is
    neither TL_IGNORE nor TL_UNLOCK (TL_UNLOCK if there is none): later
    requests do not change it.  Every call appends the handler's lock to the
    array once. *)
Theorem store_lock_keeps_the_first_request A (me : A) reqs to :
  store_locks me reqs (TL_UNLOCK, to) =
    (match find (fun t => negb (t =? TL_IGNORE)%Z && negb (t =? TL_UNLOCK)%Z) reqs with
     | Some t => t
     | None => TL_UNLOCK
     end,
     to ++ repeat me (length reqs)).
Proof.
  revert to. induction reqs as [|r reqs IH]; intros to.
  - cbn. now rewrite app_nil_r.
  - rewrite store_locks_cons, store_lock_unset. cbn [find length repeat].
    destruct (Z.eqb_spec r TL_IGNORE) as [->|Hi]; cbn [negb andb].
    + rewrite IH, <- app_assoc. reflexivity.
    + destruct (Z.eqb_spec r TL_UNLOCK) as [->|Hu]; cbn [negb].
      * rewrite IH, <- app_assoc. reflexivity.
      * rewrite (store_locks_set me reqs r (to ++ [me]) Hu), <- app_assoc. reflexivity.
Qed.



(** ** Identifiers at the bounds of the 32-byte buffer *)

Lemma open_parsed L D os nm mode tl w b p host :
  socket_opened (share_at_open os w) = false -> (0 <= ret_socket os)%Z ->
  (forall w0, run (split_ip_port (table_name w)) w0 = inr ((b, p), w0)) ->
  CLib.string_of_arr b = Some host -> roomy L (share_at_open os w) ->
  run (open L D os nm mode tl) w = inr (0%Z, opened_world L D os w host p).
Proof.
  intros Hclosed Hfd Hrun Hhost Hroom. unfold open.
  rewrite run_bind, (get_share_run _ w os eq_refl), Hclosed. cbn [negb].
  rewrite run_bind, run_update, run_bind, run_update.
  destruct (Z.ltb_spec (ret_socket os) 0); [lia|].
  rewrite run_bind, run_get. cbn [table_name set_share log].
  rewrite run_bind, Hrun. cbn [fst snd].
  rewrite run_bind, Hhost, run_defined.
  rewrite run_bind. erewrite run_the_share by reflexivity.
  rewrite run_bind, run_update, run_bind, run_update.
  erewrite reset_all_run; [|reflexivity|].
  - rewrite run_ret. unfold opened_world. world. rewrite <- app_assoc. reflexivity.
  - intros a. destruct a; [apply (Hroom Mode) | apply (Hroom Temperature)
                           | apply (Hroom Power) | apply (Hroom Angle)].
Qed.

Lemma open_unparsed L D os nm mode tl w f :
  socket_opened (share_at_open os w) = false -> (0 <= ret_socket os)%Z ->
  (forall w0, run (split_ip_port (table_name w)) w0 = inl f) ->
  run (open L D os nm mode tl) w = inl f.
Proof.
  intros Hclosed Hfd Hrun. unfold open.
  rewrite run_bind, (get_share_run _ w os eq_refl), Hclosed. cbn [negb].
  rewrite run_bind, run_update, run_bind, run_update.
  destruct (Z.ltb_spec (ret_socket os) 0); [lia|].
  rewrite run_bind, run_get. cbn [table_name set_share log].
  rewrite run_bind, Hrun. reflexivity.
Qed.

Lemma open_unterminated L D os nm mode tl w b p :
  socket_opened (share_at_open os w) = false -> (0 <= ret_socket os)%Z ->
  (forall w0, run (split_ip_port (table_name w)) w0 = inr ((b, p), w0)) ->
  CLib.string_of_arr b = None ->
  run (open L D os nm mode tl) w = inl Unterminated.
Proof.
  intros Hclosed Hfd Hrun Hhost. unfold open.
  rewrite run_bind, (get_share_run _ w os eq_refl), Hclosed. cbn [negb].
  rewrite run_bind, run_update, run_bind, run_update.
  destruct (Z.ltb_spec (ret_socket os) 0); [lia|].
  rewrite run_bind, run_get. cbn [table_name set_share log].
  rewrite run_bind, Hrun. cbn [fst snd].
  rewrite run_bind, Hhost, run_undefined. reflexivity.
Qed.

Lemma firstn_cstr n s :
  Forall (fun c => c <> NUL) (firstn n s) -> firstn n (CLib.cstr s) = firstn n s.
Proof.
  revert s. induction n as [|n IH]; intros s H; [reflexivity|].
  destruct s as [|c r]; [reflexivity|]. cbn [firstn CLib.cstr] in *.
  inversion H as [|? ? Hc Hr]; subst.
  destruct (Ascii.eqb_spec c NUL); [contradiction|]. cbn [firstn]. now rewrite IH.
Qed.

Lemma strlen_arr_none l : Forall (fun c => c <> NUL) l -> CLib.strlen_arr l = None.
Proof.
  induction 1 as [|c r Hc _ IH]; [reflexivity|]. cbn [CLib.strlen_arr].
  destruct (Ascii.eqb_spec c NUL); [contradiction|]. now rewrite IH.
Qed.

Lemma find_colon_none l i : Forall (fun c => c <> ":"%char) l -> find_colon l i = None.
Proof.
  intros H. pose proof (find_colon_absent l 0 i H) as E. cbn [repeat] in E.
  now rewrite app_nil_r in E.
Qed.

(** The buffer [open] scans: the first 32 bytes of the name when none of them
    is a terminator. *)
Lemma ip_port_buf_full name :
  32 <= length name -> Forall (fun c => c <> NUL) (firstn 32 name) ->
  CLib.strncpy (repeat NUL 32) name 32 = Some (firstn 32 name).
Proof.
  intros Hlen Hnul. rewrite CFacts.strncpy_fits by (rewrite repeat_length; lia).
  rewrite (firstn_cstr 32 name Hnul), length_firstn.
  replace (32 - Nat.min 32 (length name)) with 0 by lia.
  rewrite skipn_all2 by (rewrite repeat_length; lia). cbn [repeat app].
  now rewrite app_nil_r.
Qed.

(** X18.  When the first 32 bytes of the table name hold neither a terminator
    nor a colon, [open] (share not connected, socket created) leaves the
    32-byte buffer without terminator and the host string is read past the end
    of the buffer: undefined behaviour. *)
Theorem open_of_a_long_host_reads_past_the_buffer L D os nm mode tl w :
  socket_opened (share_at_open os w) = false -> (0 <= ret_socket os)%Z ->
  32 <= length (table_name w) ->
  Forall (fun c => c <> NUL /\ c <> ":"%char) (firstn 32 (table_name w)) ->
  run (open L D os nm mode tl) w = inl Unterminated.
Proof.
  intros Hclosed Hfd Hlen Hclean.
  assert (Hnul : Forall (fun c => c <> NUL) (firstn 32 (table_name w)))
    by (eapply Forall_impl; [|exact Hclean]; cbv beta; tauto).
  assert (Hcol : Forall (fun c => c <> ":"%char) (firstn 32 (table_name w)))
    by (eapply Forall_impl; [|exact Hclean]; cbv beta; tauto).
  apply open_unterminated with (b := firstn 32 (table_name w)) (p := 0%Z); try assumption.
  - intros w0. unfold split_ip_port.
    rewrite run_bind, (ip_port_buf_full _ Hlen Hnul), run_defined.
    rewrite (find_colon_none _ 0 Hcol), run_ret. reflexivity.
  - unfold CLib.string_of_arr. now rewrite (strlen_arr_none _ Hnul).
Qed.

Lemma open_of_a_long_host_reads_past_the_buffer_demo :
  run (open 16 51000 (mkAnswers 3 0 (raw_share 16)) [] 0%Z 0%Z)
      (mkWorld (repeat "h"%char 32) [] None false 0 []) = inl Unterminated.
Proof.
  apply (open_of_a_long_host_reads_past_the_buffer 16 51000 (mkAnswers 3 0 (raw_share 16))
           [] 0%Z 0%Z (mkWorld (repeat "h"%char 32) [] None false 0 [])).
  - reflexivity.
  - cbn; lia.
  - cbn; lia.
  - repeat constructor; discriminate.
Defined.

Lemma cstr_app_clean host rest :
  Forall (fun c => c <> NUL) host -> CLib.cstr (host ++ rest) = host ++ CLib.cstr rest.
Proof.
  induction 1 as [|c r Hc _ IH]; [reflexivity|]. cbn [app CLib.cstr].
  destruct (Ascii.eqb_spec c NUL); [contradiction | now rewrite IH].
Qed.

(** X19.  When the first colon of the table name is its byte 31, the last byte
    of the buffer, [open] does not call [atoi]: it connects to the 31 bytes
    before the colon on the default port, whatever follows the colon. *)
Theorem open_with_the_colon_at_31_uses_the_default_port L D os nm mode tl w host rest :
  socket_opened (share_at_open os w) = false -> (0 <= ret_socket os)%Z ->
  table_name w = host ++ ":"%char :: rest -> length host = 31 ->
  Forall (fun c => c <> NUL /\ c <> ":"%char) host ->
  roomy L (share_at_open os w) ->
  run (open L D os nm mode tl) w = inr (0%Z, opened_world L D os w host 0%Z).
Proof.
  intros Hclosed Hfd Hname Hlen Hclean Hroom.
  assert (Hnul : Forall (fun c => c <> NUL) host)
    by (eapply Forall_impl; [|exact Hclean]; cbv beta; tauto).
  assert (Hcol : Forall (fun c => c <> ":"%char) host)
    by (eapply Forall_impl; [|exact Hclean]; cbv beta; tauto).
  apply open_parsed with (b := host ++ [NUL]); try assumption.
  - intros w0. unfold split_ip_port. rewrite Hname.
    assert (Hbuf : CLib.strncpy (repeat NUL 32) (host ++ ":"%char :: rest) 32
                   = Some (host ++ [":"%char])).
    { rewrite CFacts.strncpy_fits by (rewrite repeat_length; lia).
      rewrite skipn_all2 by (rewrite repeat_length; lia).
      rewrite (cstr_app_clean host _ Hnul). cbn [CLib.cstr].
      change (Ascii.eqb ":" NUL) with false. cbv iota.
      assert (E : firstn 32 (host ++ ":"%char :: CLib.cstr rest) = host ++ [":"%char]).
      { rewrite firstn_app, Hlen, (firstn_all2 (n := 32) host) by lia. reflexivity. }
      rewrite E, length_app, Hlen. cbn [length Nat.add Nat.sub repeat].
      now rewrite !app_nil_r. }
    rewrite run_bind, Hbuf, run_defined.
    rewrite (find_colon_found host [] 0 Hcol), Hlen. cbn [Nat.add].
    assert (Hpoke : CLib.poke (host ++ [":"%char]) 31 NUL = Some (host ++ [NUL])).
    { unfold CLib.poke. rewrite length_app, Hlen. cbn [length Nat.add Nat.ltb Nat.leb].
      rewrite firstn_app, Hlen, (firstn_all2 (n := 31) host) by lia.
      rewrite skipn_all2 by (rewrite length_app, Hlen; cbn; lia).
      cbn [Nat.sub firstn app]. now rewrite app_nil_r. }
    rewrite run_bind, Hpoke, run_defined. cbn [Nat.ltb Nat.leb]. rewrite run_ret. reflexivity.
  - now apply CFacts.string_of_arr_app.
Qed.

Lemma open_with_the_colon_at_31_uses_the_default_port_demo :
  run (open 16 51000 (mkAnswers 3 0 (raw_share 16)) [] 0%Z 0%Z)
      (mkWorld (repeat "h"%char 31 ++ ":"%char :: lit "9000") [] None false 0 [])
  = inr (0%Z, opened_world 16 51000 (mkAnswers 3 0 (raw_share 16))
                (mkWorld (repeat "h"%char 31 ++ ":"%char :: lit "9000") [] None false 0 [])
                (repeat "h"%char 31) 0%Z).
Proof.
  apply (open_with_the_colon_at_31_uses_the_default_port 16 51000
           (mkAnswers 3 0 (raw_share 16)) [] 0%Z 0%Z
           (mkWorld (repeat "h"%char 31 ++ ":"%char :: lit "9000") [] None false 0 [])
           (repeat "h"%char 31) (lit "9000")).
  - reflexivity.
  - cbn; lia.
  - reflexivity.
  - reflexivity.
  - repeat constructor; discriminate.
  - apply roomy_ctor, roomy_raw_share.
Defined.



Lemma atoi_digits_runs_off acc ds :
  Forall (fun c => CLib.isdigit c = true) ds -> CLib.atoi_digits acc ds = None.
Proof.
  intros H. revert acc. induction H as [|c r Hc _ IH]; intros acc; [reflexivity|].
  cbn [CLib.atoi_digits]. rewrite Hc. apply IH.
Qed.

Lemma atoi_runs_off ds :
  Forall (fun c => CLib.isdigit c = true) ds -> CLib.atoi ds = None.
Proof.
  intros H. unfold CLib.atoi. destruct H as [|c r Hc Hr]; [reflexivity|].
  destruct (isdigit_cases c Hc) as (Hsp & Hm & Hp & _).
  cbn [CLib.atoi_spaces]. rewrite Hsp. unfold CLib.atoi_signed. rewrite Hm, Hp.
  now rewrite (atoi_digits_runs_off 0 (c :: r) (Forall_cons c Hc Hr)).
Qed.

(** X20.  When the bytes of the table name after its first colon are digits up
    to byte 31, the last byte of the buffer, [atoi] reads past the end of the
    buffer: undefined behaviour. *)
Theorem open_with_digits_up_to_the_end_is_undefined L D os nm mode tl w host seg :
  socket_opened (share_at_open os w) = false -> (0 <= ret_socket os)%Z ->
  table_name w = host ++ ":"%char :: seg -> length host <= 30 ->
  Forall (fun c => c <> NUL /\ c <> ":"%char) host ->
  31 - length host <= length seg ->
  Forall (fun c => CLib.isdigit c = true) (firstn (31 - length host) seg) ->
  run (open L D os nm mode tl) w = inl AtoiUndefined.
Proof.
  intros Hclosed Hfd Hname Hlen Hclean Hseg Hdig.
  assert (Hnul : Forall (fun c => c <> NUL) host)
    by (eapply Forall_impl; [|exact Hclean]; cbv beta; tauto).
  assert (Hcol : Forall (fun c => c <> ":"%char) host)
    by (eapply Forall_impl; [|exact Hclean]; cbv beta; tauto).
  set (k := 31 - length host) in *.
  set (ds := firstn k seg) in *.
  assert (Hds : length ds = k) by (unfold ds; rewrite length_firstn; lia).
  assert (Hdnul : Forall (fun c => c <> NUL) ds)
    by (eapply Forall_impl; [|exact Hdig]; intros c Hc; now apply isdigit_cases).
  apply open_unparsed; try assumption.
  intros w0. unfold split_ip_port. rewrite Hname.
  assert (Hbuf : CLib.strncpy (repeat NUL 32) (host ++ ":"%char :: seg) 32
                 = Some (host ++ ":"%char :: ds)).
  { rewrite CFacts.strncpy_fits by (rewrite repeat_length; lia).
    rewrite skipn_all2 by (rewrite repeat_length; lia).
    rewrite (cstr_app_clean host _ Hnul). cbn [CLib.cstr].
    change (Ascii.eqb ":" NUL) with false. cbv iota.
    assert (E : firstn 32 (host ++ ":"%char :: CLib.cstr seg) = host ++ ":"%char :: ds).
    { rewrite firstn_app, (firstn_all2 (n := 32) host) by lia.
      replace (32 - length host) with (S k) by (unfold k; lia).
      cbn [firstn]. now rewrite (firstn_cstr k seg Hdnul). }
    rewrite E, length_app. cbn [length]. rewrite Hds.
    replace (32 - (length host + S k)) with 0 by (unfold k; lia).
    cbn [repeat]. now rewrite !app_nil_r. }
  rewrite run_bind, Hbuf, run_defined.
  rewrite (find_colon_found host ds 0 Hcol). cbn [Nat.add].
  assert (Hpoke : CLib.poke (host ++ ":"%char :: ds) (length host) NUL
                  = Some (host ++ NUL :: ds)).
  { unfold CLib.poke. rewrite length_app. cbn [length].
    destruct (Nat.ltb_spec (length host) (length host + S (length ds))); [|lia].
    rewrite firstn_app, Nat.sub_diag, firstn_all, firstn_O, app_nil_r.
    rewrite skipn_app, skipn_all2 by lia.
    replace (S (length host) - length host) with 1 by lia. reflexivity. }
  rewrite run_bind, Hpoke, run_defined.
  destruct (Nat.ltb_spec (length host) 31); [|lia].
  rewrite skipn_app, skipn_all2 by lia.
  replace (length host + 1 - length host) with 1 by lia. cbn [app skipn].
  rewrite run_bind, (atoi_runs_off ds Hdig), run_undefined. reflexivity.
Qed.

Lemma open_with_digits_up_to_the_end_is_undefined_demo :
  run (open 16 51000 (mkAnswers 3 0 (raw_share 16)) [] 0%Z 0%Z)
      (mkWorld (repeat "h"%char 27 ++ ":"%char :: lit "9000") [] None false 0 [])
  = inl AtoiUndefined.
Proof.
  apply (open_with_digits_up_to_the_end_is_undefined 16 51000
           (mkAnswers 3 0 (raw_share 16)) [] 0%Z 0%Z
           (mkWorld (repeat "h"%char 27 ++ ":"%char :: lit "9000") [] None false 0 [])
           (repeat "h"%char 27) (lit "9000")).
  - reflexivity.
  - cbn; lia.
  - reflexivity.
  - cbn; lia.
  - repeat constructor; discriminate.
  - cbn; lia.
  - repeat constructor.
Defined.


(** ** What every sequence of calls keeps *)

Lemma split_ip_port_pure name :
  exists o : fault + (bytes * Z),
    forall w0, run (split_ip_port name) w0 =
               match o with inl f => inl f | inr x => inr (x, w0) end.
Proof.
  unfold split_ip_port.
  destruct (CLib.strncpy (repeat NUL 32) name 32) as [buf|];
    [|exists (inl OutOfBounds); intros; run_steps; reflexivity].
  destruct (find_colon buf 0) as [i|] eqn:E2;
    [|exists (inr (buf, 0%Z)); intros; run_steps; rewrite E2; run_steps; reflexivity].
  destruct (CLib.poke buf i NUL) as [b|] eqn:E3;
    [|exists (inl OutOfBounds); intros; run_steps; rewrite E2; run_steps;
      rewrite E3; run_steps; reflexivity].
  destruct (i <? 31) eqn:E4;
    [|exists (inr (b, 0%Z)); intros; run_steps; rewrite E2; run_steps;
      rewrite E3; run_steps; rewrite E4; run_steps; reflexivity].
  destruct (CLib.atoi (skipn (i + 1) b)) as [p|] eqn:E5;
    [exists (inr (b, p)) | exists (inl AtoiUndefined)]; intros; run_steps; rewrite E2;
    run_steps; rewrite E3; run_steps; rewrite E4; run_steps; rewrite E5; run_steps;
    reflexivity.
Qed.

(** The ways [open] returns. *)
Lemma open_outcomes L D os nm mode tl w r w' :
  roomy L (share_at_open os w) ->
  run (open L D os nm mode tl) w = inr (r, w') ->
  (exists sh, share w = Some sh /\ socket_opened sh = true /\ w' = w) \/
  (socket_opened (share_at_open os w) = false /\ (ret_socket os < 0)%Z /\
   w' = mkWorld (table_name w) (field w)
                (Some (set_socket (ret_socket os) (share_at_open os w)))
                (next_is_eof w) (stats_records w) (trace w ++ [EvSocket (ret_socket os)])) \/
  (socket_opened (share_at_open os w) = false /\ (0 <= ret_socket os)%Z /\
   exists host p, w' = opened_world L D os w host p).
Proof.
  intros Hroom Hrun.
  destruct (socket_opened (share_at_open os w)) eqn:Hflag.
  - left. unfold share_at_open in Hflag. destruct (share w) as [sh|] eqn:Hs.
    + exists sh. rewrite (open_connected L D os nm mode tl w sh Hs Hflag) in Hrun.
      injection Hrun as _ <-. auto.
    + discriminate Hflag.
  - right. destruct (Z.ltb_spec (ret_socket os) 0) as [Hneg|Hpos].
    + left. rewrite (open_socket_failure L D os nm mode tl w Hflag Hneg) in Hrun.
      injection Hrun as _ <-. auto.
    + right. split; [reflexivity|]. split; [exact Hpos|].
      destruct (split_ip_port_pure (table_name w)) as [[f|[b p]] Hpure].
      * rewrite (open_unparsed L D os nm mode tl w f Hflag Hpos Hpure) in Hrun. discriminate.
      * destruct (CLib.string_of_arr b) as [host|] eqn:Hhost.
        -- rewrite (open_parsed L D os nm mode tl w b p host Hflag Hpos Hpure Hhost Hroom)
             in Hrun.
           injection Hrun as _ <-. eauto.
        -- rewrite (open_unterminated L D os nm mode tl w b p Hflag Hpos Hpure Hhost) in Hrun.
           discriminate.
Qed.

(** The ways the loop body of a write returns. *)
Lemma write_update_field_outcomes f w w' sh :
  share w = Some sh -> run (write_update_field f) w = inr (tt, w') ->
  w' = w \/
  exists sh' name v,
    w' = sent_token (socket sh) name v (set_share sh' w) /\
    socket sh' = socket sh /\ socket_opened sh' = socket_opened sh /\
    (forall a, length (state a sh') = length (state a sh)) /\
    (terminated sh -> terminated sh').
Proof.
  intros Hs. destruct (write_target (field_name f)) as [a|] eqn:Ht.
  - destruct (Nat.ltb_spec 0 (length (val_str f))) as [Hpos|Hzero].
    + destruct (Nat.ltb_spec (length (val_str f)) (length (state a sh))) as [Hfit|Hover].
      * destruct (write_update_field_store f a w sh Hs Ht Hpos Hfit) as (b & _ & Hb & Hl & Hrun).
        rewrite Hrun. intros [= <-]. right.
        exists (set_state a b sh), (CLib.cstr (field_name f)), (CLib.cstr (val_str f)).
        split; [reflexivity|]. split; [destruct a; reflexivity|].
        split; [destruct a; reflexivity|].
        split; [intros a'; now apply length_state_set_state|].
        intros Hterm. eapply terminated_set_state; eassumption.
      * rewrite (write_update_field_overrun f a w sh Hs Ht Hpos Hover). discriminate.
    + assert (Hv : val_str f = []) by (destruct (val_str f); [reflexivity | cbn in Hzero; lia]).
      destruct (cached a sh) as [v|] eqn:Hc.
      * rewrite (write_update_field_keep f a w sh v Hs Ht Hv Hc). intros [= <-]. right.
        exists sh, (CLib.cstr (field_name f)), v.
        rewrite (set_share_same w sh Hs). repeat split; auto.
      * rewrite (write_update_field_target f a w Ht).
        unfold cache_and_send. cbv zeta. rewrite Hv.
        change (0 <? length (@nil ascii)) with false. unfold cached in Hc.
        run_steps. rewrite Hc. run_steps. discriminate.
  - rewrite (write_update_field_skip f w Ht). intros [= <-]. now left.
Qed.

Lemma for_each_write_outcomes fs : forall w w' sh,
  share w = Some sh -> run (for_each write_update_field fs) w = inr (tt, w') ->
  wrote sh w w'.
Proof.
  induction fs as [|f r IH]; intros w w' sh Hs; cbn [for_each]; run_steps.
  - intros [= <-]. exists sh, []. cbn [map]. rewrite app_nil_r. repeat split; auto.
  - destruct (run (write_update_field f) w) as [e|[[] w1]] eqn:E; [discriminate|].
    intros Hrest.
    destruct (write_update_field_outcomes f w w1 sh Hs E)
      as [->|(sh1 & name & v & -> & Hfd & Hop & Hl & Ht)].
    + now apply IH.
    + assert (Hs1 : share (sent_token (socket sh) name v (set_share sh1 w)) = Some sh1)
        by reflexivity.
      destruct (IH _ w' sh1 Hs1 Hrest) as (sh' & ps & Hs' & Hfd' & Hop' & Hl' & Ht' & Htr).
      exists sh', ([name; lit ":"; v; lit ","] ++ ps).
      split; [exact Hs'|]. split; [congruence|]. split; [congruence|].
      split; [intros a; now rewrite Hl', Hl|]. split; [auto|].
      rewrite Htr, trace_sent_token_sends, Hfd, map_app, <- app_assoc. reflexivity.
Qed.

Lemma for_each_write_no_share fs : forall w0 w1,
  share w0 = None ->
  run (for_each write_update_field fs) w0 = inr (tt, w1) -> share w1 = None.
Proof.
  induction fs as [|f fs IH]; intros w0 w1 H0; cbn [for_each]; run_steps.
  - now intros [= <-].
  - destruct (write_target (field_name f)) as [a|] eqn:Ht.
    + rewrite (write_update_field_target f a w0 Ht). unfold cache_and_send.
      rewrite !run_bind, (run_the_share_null w0 H0). discriminate.
    + rewrite (write_update_field_skip f w0 Ht). cbv beta iota. now apply IH.
Qed.

Lemma write_update_row_outcomes w r w' sh :
  share w = Some sh -> run write_update_row w = inr (r, w') -> wrote sh w w'.
Proof.
  intros Hs. unfold write_update_row. run_steps.
  destruct (run (for_each write_update_field (field w)) w) as [e|[[] w1]] eqn:E;
    [discriminate|].
  destruct (for_each_write_outcomes (field w) w w1 sh Hs E)
    as (sh' & ps & Hs' & Hfd' & Hop' & Hl' & Ht' & Htr).
  run_steps. intros [= _ <-].
  exists sh', (ps ++ [[LF]]). repeat split; try assumption.
  unfold log. cbn [trace]. rewrite Htr, Hfd', map_app, <- app_assoc. reflexivity.
Qed.

(** A scan changes neither the share nor the system calls. *)
Lemma rnd_next_field_pure f w x w' : run (rnd_next_field f) w = inr (x, w') -> w' = w.
Proof.
  unfold rnd_next_field. cbv zeta. rewrite run_bind.
  assert (Hshare : forall (pick : Ircon_share -> bytes),
             run (sh <- the_share ;; ret (pick sh)) w = inl NullShare \/
             exists b, run (sh <- the_share ;; ret (pick sh)) w = inr (b, w)).
  { intros pick. destruct (share w) as [sh|] eqn:Hs.
    - right. exists (pick sh). run_steps. reflexivity.
    - left. rewrite run_bind, (run_the_share_null w Hs). reflexivity. }
  assert (Hres : forall o : fault + (bytes * world),
             (o = inl NullShare \/ exists b, o = inr (b, w)) ->
             match o with
             | inl e => inl e
             | inr (res, w1) =>
                 run (v <- defined Unterminated (CLib.string_of_arr res) ;; ret (store f v)) w1
             end = inr (x, w') -> w' = w).
  { intros o [->|[b ->]]; [discriminate|].
    destruct (CLib.string_of_arr b); run_steps; [now intros [= _ <-] | discriminate]. }
  destruct (_ =? 0)%Z; [apply Hres, Hshare|].
  destruct (_ =? 0)%Z; [apply Hres, Hshare|].
  destruct (_ =? 0)%Z; [apply Hres, Hshare|].
  destruct (_ =? 0)%Z; [apply Hres, Hshare|].
  apply Hres. right. eexists. run_steps. reflexivity.
Qed.

Lemma map_each_rnd_next_field_pure fs : forall w x w',
  run (map_each rnd_next_field fs) w = inr (x, w') -> w' = w.
Proof.
  induction fs as [|f r IH]; intros w x w'; cbn [map_each]; run_steps.
  - now intros [= _ <-].
  - destruct (run (rnd_next_field f) w) as [e|[y w1]] eqn:E; [discriminate|].
    apply rnd_next_field_pure in E. subst w1. run_steps.
    destruct (run (map_each rnd_next_field r) w) as [e|[ys w2]] eqn:E2; [discriminate|].
    apply IH in E2. subst w2. run_steps. now intros [= _ <-].
Qed.

Lemma rnd_next_outcomes buf w r w' :
  run (rnd_next buf) w = inr (r, w') -> share w' = share w /\ trace w' = trace w.
Proof.
  unfold rnd_next. run_steps. destruct (next_is_eof w); run_steps.
  - intros [= _ <-]. auto.
  - destruct (run (map_each rnd_next_field (field w)) w) as [e|[fs w1]] eqn:E; [discriminate|].
    apply map_each_rnd_next_field_pure in E. subst w1. run_steps. intros [= _ <-]. auto.
Qed.

Lemma roomy_share_at_open L os w : call_ok L (CallOpen os) -> kept L w -> roomy L (share_at_open os w).
Proof.
  unfold call_ok, kept, share_at_open. intros Hok Hk.
  destruct (share w); [apply Hk | now apply roomy_ctor].
Qed.

Lemma perform_effect L D c w r w' :
  call_ok L c -> kept L w -> run (perform L D c) w = inr (r, w') -> effect L w w'.
Proof.
  intros Hok Hk. destruct c as [os| |row|row| | | | |]; cbn [perform].
  - intros Hrun. pose proof (roomy_share_at_open L os w Hok Hk) as Hroom.
    destruct (open_outcomes L D os [] 0%Z 0%Z w r w' Hroom Hrun)
      as [(sh & Hs & Hflag & ->)|[(Hflag & Hneg & ->)|(Hflag & Hpos & host & p & ->)]].
    + now apply NoEffect.
    + apply SocketFailed with (fd := ret_socket os) (sh0 := share_at_open os w);
        try assumption; try reflexivity.
      intros s Hs. unfold share_at_open. now rewrite Hs.
    + eapply Connected with (fd := ret_socket os) (sh0 := share_at_open os w);
        try assumption; try reflexivity.
      intros s Hs. unfold share_at_open in *. rewrite Hs in *. auto.
  - destruct (share w) as [sh|] eqn:Hs.
    + rewrite (close_run w sh Hs). intros [= _ <-]. now apply Closed with (sh := sh).
    + unfold close. rewrite run_bind, (run_the_share_null w Hs). discriminate.
  - run_steps. unfold write_row. intros Hrun.
    destruct (share w) as [sh|] eqn:Hs.
    + apply Wrote with (sh := sh); [exact Hs|].
      apply (write_update_row_outcomes _ r w' sh) in Hrun; [|exact Hs]. exact Hrun.
    + unfold write_update_row in Hrun. revert Hrun. run_steps.
      destruct (run (for_each write_update_field _) _) as [e|[[] w1]] eqn:E; [discriminate|].
      destruct (share w1) as [s1|] eqn:Hs1.
      * intros _.
        rewrite (for_each_write_no_share _ (set_field (fill_row (field w) row) w) w1 Hs E)
          in Hs1.
        discriminate.
      * rewrite run_bind, (run_the_share_null w1 Hs1). discriminate.
  - run_steps. unfold update_row. intros Hrun.
    destruct (share w) as [sh|] eqn:Hs.
    + apply Wrote with (sh := sh); [exact Hs|].
      apply (write_update_row_outcomes _ r w' sh) in Hrun; [|exact Hs]. exact Hrun.
    + unfold write_update_row in Hrun. revert Hrun. run_steps.
      destruct (run (for_each write_update_field _) _) as [e|[[] w1]] eqn:E; [discriminate|].
      destruct (share w1) as [s1|] eqn:Hs1.
      * intros _.
        rewrite (for_each_write_no_share _ (set_field (fill_row (field w) row) w) w1 Hs E)
          in Hs1.
        discriminate.
      * rewrite run_bind, (run_the_share_null w1 Hs1). discriminate.
  - destruct (share w) as [sh|] eqn:Hs.
    + assert (Hroom : roomy L sh) by (unfold kept in Hk; rewrite Hs in Hk; apply Hk).
      unfold delete_row. rewrite (reset_all_run L _ _ w sh Hs Hroom). run_steps.
      intros [= _ <-]. now apply Deleted with (sh := sh).
    + unfold delete_row, reset_state. rewrite !run_bind, (run_the_share_null w Hs). discriminate.
  - unfold rnd_init. run_steps. intros [= _ <-]. now apply NoEffect.
  - intros Hrun. apply rnd_next_outcomes in Hrun. now apply NoEffect.
  - unfold rnd_end. run_steps. intros [= _ <-]. now apply NoEffect.
  - unfold info. run_steps. intros [= _ <-]. now apply NoEffect.
Qed.


Lemma effect_kept L w w' : 8 <= L -> kept L w -> effect L w w' -> kept L w'.
Proof.
  intros H8 Hk He. unfold kept in *.
  destruct He as [Hs _|fd sh0 host port rc _ Hroom _ Hs _|fd sh0 _ Hflag Hroom _ Hs _
                 |sh Hs0 Hs _|sh Hs0 (sh' & ps & Hs & _ & Hop & Hl & Ht & _)
                 |sh Hs0 Hroom Hs _].
  - now rewrite Hs.
  - rewrite Hs. split.
    + now apply reset_share_roomy, roomy_connected.
    + intros _. apply reset_share_terminated; [exact H8 | now apply roomy_connected].
  - rewrite Hs. split.
    + intros a. specialize (Hroom a). destruct a; exact Hroom.
    + cbn. rewrite Hflag. discriminate.
  - rewrite Hs0 in Hk. rewrite Hs. split.
    + intros a. destruct Hk as [Hroom _]. specialize (Hroom a). destruct a; exact Hroom.
    + discriminate.
  - rewrite Hs0 in Hk. rewrite Hs. destruct Hk as [Hroom Hterm]. split.
    + intros a. rewrite Hl. apply Hroom.
    + rewrite Hop. auto.
  - rewrite Hs. split.
    + now apply reset_share_roomy.
    + intros _. now apply reset_share_terminated.
Qed.

Lemma descriptors_app t1 t2 :
  descriptors (t1 ++ t2) = fold_left descriptor_step t2 (descriptors t1).
Proof. unfold descriptors. apply fold_left_app. Qed.

Lemma descriptors_sends fd ps l : fold_left descriptor_step (map (EvSend fd) ps) l = l.
Proof. induction ps as [|p r IH]; [reflexivity | exact IH]. Qed.

Lemma effect_one_socket L w w' : one_socket w -> effect L w w' -> one_socket w'.
Proof.
  unfold one_socket. intros H1 He.
  destruct He as [Hs Htr|fd sh0 host port rc Hs0 _ Hfd Hs Htr|fd sh0 Hs0 Hflag _ Hfd Hs Htr
                 |sh Hs0 Hs Htr|sh Hs0 (sh' & ps & Hs & Hfd & Hop & _ & _ & Htr)
                 |sh Hs0 _ Hs Htr].
  - now rewrite Hs, Htr.
  - assert (Hnone : descriptors (trace w) = []).
    { rewrite H1. destruct (share w) as [s|]; [|reflexivity].
      destruct (Hs0 s eq_refl) as [_ ->]. reflexivity. }
    rewrite Hs, Htr, descriptors_app, Hnone. cbn [fold_left descriptor_step].
    destruct (Z.ltb_spec fd 0); [lia|]. reflexivity.
  - assert (Hnone : descriptors (trace w) = []).
    { rewrite H1. destruct (share w) as [s|]; [|reflexivity].
      rewrite (Hs0 s eq_refl), Hflag. reflexivity. }
    rewrite Hs, Htr, descriptors_app, Hnone. cbn [fold_left descriptor_step].
    destruct (Z.ltb_spec fd 0); [|lia]. cbn. now rewrite Hflag.
  - rewrite Hs0 in H1. rewrite Hs, Htr, descriptors_app, H1.
    cbn [fold_left descriptor_step].
    destruct (socket_opened sh); cbn [remove]; [|reflexivity].
    destruct (Z.eq_dec (socket sh) (socket sh)); [reflexivity | contradiction].
  - rewrite Hs0 in H1. rewrite Hs, Htr, descriptors_app, descriptors_sends, H1, Hfd, Hop.
    reflexivity.
  - rewrite Hs0 in H1. rewrite Hs, Htr, descriptors_app, H1. reflexivity.
Qed.

Lemma perform_all_kept L D cs : forall w rs w',
  8 <= L -> Forall (call_ok L) cs -> kept L w -> one_socket w ->
  run (perform_all L D cs) w = inr (rs, w') -> kept L w' /\ one_socket w'.
Proof.
  induction cs as [|c r IH]; intros w rs w' H8 Hok Hk H1; cbn [perform_all]; run_steps.
  - intros [= _ <-]. auto.
  - inversion Hok as [|? ? Hc Hr]; subst.
    destruct (run (perform L D c) w) as [e|[x w1]] eqn:E; [discriminate|].
    pose proof (perform_effect L D c w x w1 Hc Hk E) as He. run_steps.
    destruct (run (perform_all L D r) w1) as [e|[xs w2]] eqn:E2; [discriminate|].
    run_steps. intros [= _ <-].
    apply (IH w1 xs w2 H8 Hr); [now apply (effect_kept L w) | now apply (effect_one_socket L w)
                               | exact E2].
Qed.

(** X21.  Starting without a share, after any sequence of open, close, write,
    update, delete, scan and info calls that all return (reset length at least
    8, every storage handed to an open with room for the reset), a share that
    is marked connected has arrays with room for the reset that hold
    terminated strings, and a scan started then returns a row. *)
Theorem calls_keep_a_connected_share_readable L D cs w rs w' sh :
  8 <= L -> Forall (call_ok L) cs -> share w = None -> trace w = [] ->
  run (perform_all L D cs) w = inr (rs, w') ->
  share w' = Some sh -> socket_opened sh = true ->
  roomy L sh /\ terminated sh /\
  exists w'', run (rnd_init true ;; rnd_next []) w' = inr (0%Z, w'').
Proof.
  intros H8 Hok Hs Htr Hrun Hs' Hflag.
  assert (Hk : kept L w) by (unfold kept; now rewrite Hs).
  assert (H1 : one_socket w) by (unfold one_socket; now rewrite Hs, Htr).
  destruct (perform_all_kept L D cs w rs w' H8 Hok Hk H1 Hrun) as [Hk' _].
  unfold kept in Hk'. rewrite Hs' in Hk'. destruct Hk' as [Hroom Hterm].
  split; [exact Hroom|]. split; [auto|].
  unfold rnd_init. run_steps.
  erewrite rnd_next_row; [|exact Hs'|auto|reflexivity]. eauto.
Qed.

Lemma demo_calls_run :
  run (perform_all 16 51000 demo_calls) demo_start = inr (demo_results, demo_end).
Proof. vm_compute. reflexivity. Qed.

Lemma demo_calls_ok : Forall (call_ok 16) demo_calls.
Proof. repeat constructor; apply roomy_raw_share. Qed.

Lemma calls_keep_a_connected_share_readable_demo :
  roomy 16 demo_end_share /\ terminated demo_end_share /\
  exists w'', run (rnd_init true ;; rnd_next []) demo_end = inr (0%Z, w'').
Proof.
  apply (calls_keep_a_connected_share_readable 16 51000 demo_calls demo_start
           demo_results demo_end demo_end_share);
    [lia | exact demo_calls_ok | reflexivity | reflexivity | exact demo_calls_run
    | reflexivity | reflexivity].
Defined.

(** X22.  Starting without a share and without system calls, after any such
    sequence of calls that all return, the descriptors created by [socket] and
    not yet closed are exactly the descriptor of the share while the share is
    marked connected, and none otherwise: at most one socket is open. *)
Theorem calls_keep_one_socket L D cs w rs w' :
  8 <= L -> Forall (call_ok L) cs -> share w = None -> trace w = [] ->
  run (perform_all L D cs) w = inr (rs, w') ->
  descriptors (trace w') =
    match share w' with
    | Some sh => if socket_opened sh then [socket sh] else []
    | None => []
    end.
Proof.
  intros H8 Hok Hs Htr Hrun.
  assert (Hk : kept L w) by (unfold kept; now rewrite Hs).
  assert (H1 : one_socket w) by (unfold one_socket; now rewrite Hs, Htr).
  exact (proj2 (perform_all_kept L D cs w rs w' H8 Hok Hk H1 Hrun)).
Qed.

Lemma calls_keep_one_socket_demo :
  descriptors (trace demo_end) =
    match share demo_end with
    | Some sh => if socket_opened sh then [socket sh] else []
    | None => []
    end.
Proof.
  apply (calls_keep_one_socket 16 51000 demo_calls demo_start demo_results demo_end);
    [lia | exact demo_calls_ok | reflexivity | reflexivity | exact demo_calls_run].
Defined.
